(** * drive-config: the resumable, retrying upload engine of [app.py]

    A shallow embedding of the upload engine of [app.py] and the properties
    of its specification:

    - [is_transient], the transient-error classifier;
    - [next_chunk_with_retry], the bounded retry loop with its backoff delay;
    - [get_service] and [upload_files], the batch coordinator;
    - [upload], the [/upload] intake.

    Modelling conventions.

    - A Python [str] is a [string]; [str.lower] is the ASCII case map (the
      twelve signatures of the classifier are ASCII).
    - The delay of a retry is the exact rational of [Q] that its expression
      denotes: the rounding of the argument of [time.sleep] is outside the
      model.  The progress fraction is a binary64 [float]: its conversion to
      a percentage rounds as IEEE 754 does (module [Double]: round to
      nearest, ties to even, 53 bits, subnormals, overflow), and is compared
      with the kernel's binary64 arithmetic.
    - Side effects (callbacks, [print], [time.sleep], [os.remove], calls of
      [request.next_chunk], [f.save], thread start) are recorded, in program
      order, in a list of [event]s.
    - What the program does not own (the remote session behind
      [request.next_chunk], credentials, the file system, werkzeug's
      [secure_filename]) is a field of the record [World], over which every
      definition and theorem is stated. *)

From Stdlib Require Import String Ascii List Bool Arith ZArith QArith Qpower Qround Lia.
From Stdlib Require Import Qabs Lqa DecimalString Sorted.
From Corelib Require PrimFloat.
From Equations Require Import Equations.
Import ListNotations.

Close Scope Q_scope.
Open Scope nat_scope.
Open Scope string_scope.
Open Scope list_scope.

(** String concatenation, kept apart from the [++] of lists. *)
Infix "+++" := String.append (right associativity, at level 60).

(** ** Python strings *)

Module PyStr.

(** [c.lower()] on one ASCII character: [A]..[Z] move to [a]..[z]. *)
Definition lower_char (c : ascii) : ascii :=
  let n := nat_of_ascii c in
  if ((65 <=? n)%nat && (n <=? 90)%nat)%bool then ascii_of_nat (n + 32) else c.

(** [s.lower()]. *)
Fixpoint lower (s : string) : string :=
  match s with
  | EmptyString => EmptyString
  | String c t => String (lower_char c) (lower t)
  end.

(** [s.startswith(p)]. *)
Fixpoint starts_with (p s : string) : bool :=
  match p, s with
  | EmptyString, _ => true
  | String a p', String b s' => Ascii.eqb a b && starts_with p' s'
  | String _ _, EmptyString => false
  end.

(** [sub in s]: [sub] occurs in [s] as a contiguous run of characters. *)
Fixpoint contains (sub s : string) : bool :=
  starts_with sub s ||
  match s with
  | EmptyString => false
  | String _ t => contains sub t
  end.

(** The relational reading of [sub in s]. *)
Definition Infix (sub s : string) : Prop :=
  exists pre post, s = pre +++ sub +++ post.

(** [str(n)] for a non-negative integer. *)
Definition str_of_nat (n : nat) : string :=
  NilEmpty.string_of_uint (Nat.to_uint n).

(** [os.path.basename(p)] on POSIX: what follows the last ["/"].  [acc] is
    the component read since the last separator. *)
Fixpoint basename_from (acc p : string) : string :=
  match p with
  | EmptyString => acc
  | String c t =>
      if Ascii.eqb c "/" then basename_from EmptyString t
      else basename_from (acc +++ String c EmptyString) t
  end.

Definition basename (p : string) : string := basename_from EmptyString p.

(** [os.path.join(a, b)] on POSIX, for two components. *)
Definition ends_with_slash (a : string) : bool :=
  match String.get (String.length a - 1) a with
  | Some c => Ascii.eqb c "/"
  | None => false
  end.

Definition path_join (a b : string) : string :=
  if starts_with "/" b then b
  else if ((a =? EmptyString)%string || ends_with_slash a)%bool then a +++ b
  else a +++ "/" +++ b.

End PyStr.

(** ** Exceptions *)

(** Where the class of a raised object sits in the hierarchy, as far as the
    [except] clauses of [app.py] tell classes apart: [except (HttpError,
    OSError)] and [except Exception]. *)
Inductive exn_base : Type :=
| BHttpError        (* googleapiclient.errors.HttpError and subclasses *)
| BOSError          (* OSError and subclasses: ConnectionResetError, ssl.SSLError, ... *)
| BException        (* any other subclass of Exception *)
| BBaseException.   (* BaseException outside Exception: KeyboardInterrupt, ... *)

Record exn : Type := mk_exn {
  exn_base_of : exn_base;
  exn_name : string;   (* type(e).__name__ *)
  exn_text : string    (* str(e) *)
}.

(** [isinstance(e, (HttpError, OSError))]. *)
Definition is_http_or_os (e : exn) : bool :=
  match exn_base_of e with
  | BHttpError | BOSError => true
  | BException | BBaseException => false
  end.

(** [isinstance(e, Exception)]. *)
Definition is_exception (e : exn) : bool :=
  match exn_base_of e with
  | BBaseException => false
  | _ => true
  end.

(** ** The transient-error classifier *)

Definition transient_signatures : list string :=
  [ "eof occurred"; "connection reset"; "broken pipe";
    "timed out"; "timeout"; "ssl"; "tls";
    "reset by peer"; "transport closed";
    "503"; "500"; "429" ].

Definition is_transient (err : exn) : bool :=
  let s := PyStr.lower (exn_text err) in
  existsb (fun sig => PyStr.contains sig s) transient_signatures.

(** The eight substrings the specification lists for the classifier. *)
Definition spec_signatures : list string :=
  [ "timeout"; "reset"; "503"; "500"; "429"; "ssl"; "tls"; "broken pipe" ].

(** ** Observable effects *)

(** What the engine does to the outside, in program order. *)
Inductive event : Type :=
| ENextChunk                  (* request.next_chunk() is called *)
| EPrint (msg : string)       (* print(msg) *)
| ESleep (secs : Q)           (* time.sleep(secs) *)
| EStatus (msg : string)      (* status_cb(msg) *)
| EProgress (v : Z)           (* progress_cb(v) *)
| ERemove (ruta : string).    (* os.remove(ruta) is called *)

(** What one call of [request.next_chunk()] does: it returns the pair
    [(status, done)] or raises.  [status] is [None] or an upload-progress
    object, given by the fraction of which its [progress()] returns the
    double (a double is such a fraction itself); [done] is the truth value
    of the second component. *)
Inductive chunk_result : Type :=
| Returned (status : option Q) (done : bool)
| Raised (e : exn).

(** ** The world outside the engine *)

Record World : Type := {
  (* configuration, read once at start-up *)
  CUENTAS : list (string * list (string * string));
  UPLOAD_DIR : string;
  (* builtins and libraries *)
  py_repr : string -> string;            (* repr(s) of a str *)
  secure_filename : string -> string;    (* werkzeug.utils.secure_filename *)
  (* the credential steps of get_service on a token file, from loading the
     token to build(...): None when they return a service, Some e when one
     of them raises e *)
  credentials : string -> option exn;
  (* a resumable request and its state *)
  session : Type;
  (* MediaFileUpload(ruta, ...) and service.files().create(...) for a file
     [ruta] named [nombre] under the folder [carpeta_id] *)
  create_request : string -> string -> string -> exn + session;
  next_chunk : session -> chunk_result * session;
  (* os.remove(ruta): true when it returns, false when it raises OSError *)
  os_remove : string -> bool
}.

(** [d[k]] on a dict read from JSON, kept as an association list. *)
Fixpoint dict_get {V : Type} (k : string) (d : list (string * V)) : option V :=
  match d with
  | [] => None
  | (k', v) :: d' => if (k' =? k)%string then Some v else dict_get k d'
  end.

(** [k in d]. *)
Definition dict_mem {V : Type} (k : string) (d : list (string * V)) : bool :=
  match dict_get k d with Some _ => true | None => false end.

(** ** The retry loop *)

(** [sleep_s], as line 69 computes it. *)
Definition sleep_s (base_delay : Q) (intento : nat) : Q :=
  (base_delay * inject_Z (2 ^ Z.of_nat intento)
   * (1 + 0.12 * inject_Z (Z.of_nat (intento mod 3))))%Q.

(** The backoff scheduler in the words of the specification:
    [baseDelay * 2^attempt * (1 + 0.12 * (attempt mod 3))]. *)
Definition delayFor (baseDelay : Q) (attempt : nat) : Q :=
  (baseDelay * (2 ^ Z.of_nat attempt) * (1 + 0.12 * inject_Z (Z.of_nat attempt mod 3)))%Q.

Definition retry_message (intento : nat) (e : exn) : string :=
  "[upload] Retry " +++ PyStr.str_of_nat (intento + 1)
  +++ " tras error transitorio: " +++ exn_text e.

(** How one call of [next_chunk_with_retry] ends. *)
Record retry_run (S : Type) : Type := mk_run {
  run_result : chunk_result;   (* what is returned or raised *)
  run_session : S;             (* the request afterwards *)
  run_intento : nat;           (* [intento] when the loop is left *)
  run_events : list event
}.
Arguments mk_run {S}.
Arguments run_result {S}.
Arguments run_session {S}.
Arguments run_intento {S}.
Arguments run_events {S}.

Definition run_cons {S : Type} (evs : list event) (r : retry_run S) : retry_run S :=
  mk_run (run_result r) (run_session r) (run_intento r) (evs ++ run_events r).

(** The [while True] of [next_chunk_with_retry], entered with the counter at
    [intento].  Each turn either leaves the loop or raises [intento], which
    never passes [max_retries]. *)
Equations? retry_loop (w : World) (max_retries : nat) (base_delay : Q)
    (intento : nat) (s : session w) : retry_run (session w)
    by wf (max_retries - intento) lt :=
  retry_loop w max_retries base_delay intento s with next_chunk w s => {
    | (Returned status done, s') :=
        mk_run (Returned status done) s' intento [ENextChunk];
    | (Raised e, s') with is_http_or_os e => {
      | false := mk_run (Raised e) s' intento [ENextChunk];
      | true with lt_dec intento max_retries => {
        | right _ := mk_run (Raised e) s' intento [ENextChunk];
        | left _ with is_transient e => {
          | false := mk_run (Raised e) s' intento [ENextChunk];
          | true :=
              run_cons [ENextChunk;
                        EPrint (retry_message intento e);
                        ESleep (sleep_s base_delay intento)]
                (retry_loop w max_retries base_delay (intento + 1) s') } } } }.
Proof. lia. Qed.

Definition next_chunk_with_retry (w : World) (max_retries : nat) (base_delay : Q)
    (request : session w) : retry_run (session w) :=
  retry_loop w max_retries base_delay 0 request.

(** The defaults of the signature: [max_retries = 7], [base_delay = 1.2]. *)
Definition default_max_retries : nat := 7.
Definition default_base_delay : Q := 1.2%Q.

(** ** Computations that emit events, may raise, and may not finish *)

(** The two ways a block of Python is left. *)
Inductive res (A : Type) : Type :=
| Ok (a : A)
| Raise (e : exn).
Arguments Ok {A}.
Arguments Raise {A}.

(** A computation: the events it emitted and how it ended, or [None] when
    the fuel given to its loops did not let it end. *)
Definition M (A : Type) : Type := option (list event * res A).

Definition ret {A : Type} (a : A) : M A := Some ([], Ok a).

Definition raise {A : Type} (e : exn) : M A := Some ([], Raise e).

Definition emit (ev : event) : M unit := Some ([ev], Ok tt).

Definition bind {A B : Type} (m : M A) (k : A -> M B) : M B :=
  match m with
  | None => None
  | Some (evs, Raise e) => Some (evs, Raise e)
  | Some (evs, Ok a) =>
      match k a with
      | None => None
      | Some (evs', r) => Some (evs ++ evs', r)
      end
  end.

Notation "x <- m ;; k" := (bind m (fun x => k))
  (at level 61, m at next level, right associativity).
Notation "m ;;; k" := (bind m (fun _ => k))
  (at level 61, right associativity).

(** [try: m except Exception as e: handler(e)]. *)
Definition try_except {A : Type} (m : M A) (handler : exn -> M A) : M A :=
  match m with
  | None => None
  | Some (evs, Ok a) => Some (evs, Ok a)
  | Some (evs, Raise e) =>
      if is_exception e then
        match handler e with
        | None => None
        | Some (evs', r) => Some (evs ++ evs', r)
        end
      else Some (evs, Raise e)
  end.

(** [try: m finally: cleanup]: [cleanup] runs however [m] ends; when it
    ends normally, [m]'s result or exception stands. *)
Definition try_finally {A : Type} (m : M A) (cleanup : M unit) : M A :=
  match m with
  | None => None
  | Some (evs, r) =>
      match cleanup with
      | None => None
      | Some (evs', Ok _) => Some (evs ++ evs', r)
      | Some (evs', Raise e) => Some (evs ++ evs', Raise e)
      end
  end.

(** [for x in xs: body(x)]. *)
Fixpoint for_each {A : Type} (body : A -> M unit) (xs : list A) : M unit :=
  match xs with
  | [] => ret tt
  | x :: xs' => body x ;;; for_each body xs'
  end.

(** The events of a computation that ended. *)
Definition events_of {A : Type} (m : M A) : list event :=
  match m with Some (evs, _) => evs | None => [] end.

(** ** The batch coordinator *)

Definition KeyError (w : World) (key : string) : exn :=
  mk_exn BException "KeyError" (py_repr w key).

(** [get_service(cuenta)], which returns a service or raises. *)
Definition get_service (w : World) (cuenta : string) : M unit :=
  match dict_get cuenta (CUENTAS w) with
  | None => raise (KeyError w ("Cuenta desconocida: " +++ cuenta))
  | Some account =>
      match dict_get "credenciales" account with
      | None => raise (KeyError w "credenciales")
      | Some token_file =>
          match credentials w token_file with
          | Some e => raise e
          | None => ret tt
          end
      end
  end.

(** [CUENTAS[cuenta]["carpeta"]]. *)
Definition carpeta_of (w : World) (cuenta : string) : M string :=
  match dict_get cuenta (CUENTAS w) with
  | None => raise (KeyError w cuenta)
  | Some account =>
      match dict_get "carpeta" account with
      | None => raise (KeyError w "carpeta")
      | Some carpeta_id => ret carpeta_id
      end
  end.

(** Binary64 rounding of a real number, given as a rational: to the nearest
    double, ties to the even significand.  A double is an integer multiple
    of [2 ^ e] with a significand of at most 53 bits, [e] being at least
    -1074 (below [2 ^ -1022] the doubles are subnormal); a result of
    magnitude [2 ^ 1024] or more is an infinity. *)
Module Double.

Local Open Scope Q_scope.

(** The exponent of the leading bit of [q > 0]: [2 ^ k <= q < 2 ^ (k + 1)]. *)
Definition ilog2 (q : Q) : Z :=
  let k := (Z.log2 (Qnum q) - Z.log2 (Zpos (Qden q)))%Z in
  if Qle_bool (2 ^ k) q then k else (k - 1)%Z.

(** The exponent of the last bit of the double nearest [q > 0]. *)
Definition ulp_exponent (q : Q) : Z := Z.max (ilog2 q - 52) (-1074).

(** The nearest integer, a tie going to the even one. *)
Definition rne (q : Q) : Z :=
  let n := Qfloor q in
  match Qcompare (q - inject_Z n) (1 # 2) with
  | Lt => n
  | Gt => (n + 1)%Z
  | Eq => if Z.even n then n else (n + 1)%Z
  end.

(** The double nearest [q], were the exponent unbounded above. *)
Definition nearest (q : Q) : Q :=
  if Qle_bool q 0 then 0
  else let e := ulp_exponent q in inject_Z (rne (q / 2 ^ e)) * 2 ^ e.

(** The double nearest [q]; [None] is an infinity. *)
Definition round (q : Q) : option Q :=
  let r := if Qle_bool 0 q then nearest q else - nearest (- q) in
  if Qle_bool (2 ^ 1024) (Qabs r) then None else Some r.

End Double.

(** [int(x)] of a finite float: truncation towards zero. *)
Definition int_of_float (x : Q) : Z := Z.quot (Qnum x) (Zpos (Qden x)).

(** [int] of an infinity. *)
Definition OverflowError : exn :=
  mk_exn BException "OverflowError" "cannot convert float infinity to integer".

(** [int(status.progress() * 100)]: [status.progress()] is the double of
    the fraction the session reports, the product is rounded to a double
    again, and [int] truncates it. *)
Definition percent (fraction : Q) : exn + Z :=
  match Double.round fraction with
  | None => inl OverflowError
  | Some x =>
      match Double.round (x * 100)%Q with
      | None => inl OverflowError
      | Some y => inr (int_of_float y)
      end
  end.

(** [if status: progress_cb(int(status.progress() * 100))]. *)
Definition report_progress (status : option Q) : exn + list event :=
  match status with
  | None => inr []
  | Some fraction =>
      match percent fraction with
      | inl e => inl e
      | inr v => inr [EProgress v]
      end
  end.

(** The inner [while True] of [upload_files] on one request.  The remote
    session decides how many turns it takes: [fuel] bounds them. *)
Fixpoint transfer_loop (w : World) (fuel : nat) (request : session w) : M unit :=
  match fuel with
  | O => None
  | S fuel' =>
      let r := next_chunk_with_retry w default_max_retries default_base_delay request in
      match run_result r with
      | Raised e => Some (run_events r, Raise e)
      | Returned status done =>
          match report_progress status with
          | inl e => Some (run_events r, Raise e)
          | inr shown =>
              let evs := run_events r ++ shown in
              if done then Some (evs, Ok tt)
              else
                match transfer_loop w fuel' (run_session r) with
                | None => None
                | Some (evs', res) => Some (evs ++ evs', res)
                end
          end
      end
  end.

Definition subiendo (i total : nat) (nombre : string) : string :=
  "Subiendo (" +++ PyStr.str_of_nat i +++ "/" +++ PyStr.str_of_nat total
  +++ "): " +++ nombre.

(** One turn of [for i, ruta in enumerate(rutas, start=1)]. *)
Definition upload_one (w : World) (fuel : nat) (carpeta_id : string)
    (total : nat) (i : nat) (ruta : string) : M unit :=
  let nombre := PyStr.basename ruta in
  emit (EStatus (subiendo i total nombre)) ;;;
  emit (EProgress 0) ;;;
  match create_request w ruta nombre carpeta_id with
  | inl e => raise e
  | inr request => transfer_loop w fuel request
  end.

(** The [for] loop, entered at index [i]. *)
Fixpoint upload_each (w : World) (fuel : nat) (carpeta_id : string)
    (total : nat) (i : nat) (rutas : list string) : M unit :=
  match rutas with
  | [] => ret tt
  | ruta :: rest =>
      upload_one w fuel carpeta_id total i ruta ;;;
      upload_each w fuel carpeta_id total (S i) rest
  end.

Definition error_status (e : exn) : string :=
  "❌ Error: " +++ exn_name e +++ ": " +++ exn_text e.

(** The body of the [try]. *)
Definition upload_body (w : World) (fuel : nat) (cuenta : string)
    (rutas : list string) : M unit :=
  get_service w cuenta ;;;
  carpeta_id <- carpeta_of w cuenta ;;
  let total := List.length rutas in
  upload_each w fuel carpeta_id total 1 rutas ;;;
  emit (EProgress 100) ;;;
  emit (EStatus "✅ Subida completada").

(** The [finally]: each [os.remove] is tried, and an [OSError] is passed
    over. *)
Definition remove_quietly (w : World) (ruta : string) : M unit :=
  emit (ERemove ruta) ;;;
  if os_remove w ruta then ret tt else ret tt.

Definition upload_files (w : World) (fuel : nat) (cuenta : string)
    (rutas : list string) : M unit :=
  try_finally
    (try_except (upload_body w fuel cuenta rutas)
                (fun e => emit (EStatus (error_status e))))
    (for_each (remove_quietly w) rutas).

(** ** The intake *)

(** An uploaded file of the form, by its [filename]. *)
Record file_storage : Type := { filename : option string }.

Record form_request : Type := {
  form_cuenta : option string;          (* request.form.get("cuenta") *)
  form_archivos : list file_storage     (* request.files.getlist("archivos") *)
}.

(** What [upload] leaves behind: the JSON answer with its status code, the
    paths written by [f.save], and the workers started, each with the
    [cuenta] and [rutas] it was given. *)
Record upload_outcome : Type := {
  response_key : string;
  response_value : string;
  response_code : nat;
  saved : list string;
  started : list (string * list string)
}.

(** [f.filename or "archivo"]. *)
Definition filename_or_default (f : file_storage) : string :=
  match filename f with
  | None => "archivo"
  | Some name => if (name =? EmptyString)%string then "archivo" else name
  end.

(** The [for f in files] of [upload]: the paths saved, in order, when every
    [f.save] returns. *)
Fixpoint stage (w : World) (files : list file_storage) : list string :=
  match files with
  | [] => []
  | f :: rest =>
      let name := secure_filename w (filename_or_default f) in
      if (name =? EmptyString)%string then stage w rest
      else PyStr.path_join (UPLOAD_DIR w) name :: stage w rest
  end.

(** [return jsonify({"error": reason}), 400], left before any [f.save] or
    after a loop that saved nothing. *)
Definition reject (reason : string) : upload_outcome :=
  {| response_key := "error"; response_value := reason; response_code := 400;
     saved := []; started := [] |}.

(** What [upload] needs of werkzeug and of the threading module. *)
Record Intake : Type := {
  (* f.save(ruta): Some e when it raises e *)
  save : file_storage -> string -> option exn;
  (* threading.Thread(target=upload_files, args=(cuenta, rutas, ...)).start():
     Some e when it raises e *)
  start_thread : string -> list string -> option exn
}.

(** The [for f in files] of [upload] with its calls of [f.save]: the paths
    saved, in order, and the exception that left the loop, if any. *)
Fixpoint save_files (w : World) (io : Intake) (files : list file_storage)
    : list string * option exn :=
  match files with
  | [] => ([], None)
  | f :: rest =>
      let name := secure_filename w (filename_or_default f) in
      if (name =? EmptyString)%string then save_files w io rest
      else
        let ruta := PyStr.path_join (UPLOAD_DIR w) name in
        match save io f ruta with
        | Some e => ([], Some e)
        | None =>
            let (rutas, raised) := save_files w io rest in (ruta :: rutas, raised)
        end
  end.

(** How [upload] is left: by a [return], with what it leaves behind, or by
    an exception, with the paths saved until then; no worker runs then. *)
Inductive upload_result : Type :=
| Responds (o : upload_outcome)
| Raises (e : exn) (left_staged : list string).

(** [upload()], on what reading [request.form] gives: the form, or the
    exception it raises (413 when the body exceeds [MAX_CONTENT_LENGTH], 400
    when the body cannot be parsed). *)
Definition upload (w : World) (io : Intake) (request : exn + form_request)
    : upload_result :=
  match request with
  | inl e => Raises e []
  | inr req =>
      match form_cuenta req with
      | None => Responds (reject "Faltan parámetros: cuenta y archivos")
      | Some cuenta =>
          if ((cuenta =? EmptyString)%string
              || match form_archivos req with [] => true | _ => false end)%bool
          then Responds (reject "Faltan parámetros: cuenta y archivos")
          else if negb (dict_mem cuenta (CUENTAS w))
          then Responds (reject ("Cuenta desconocida: " +++ cuenta))
          else
            match save_files w io (form_archivos req) with
            | (rutas, Some e) => Raises e rutas
            | (rutas, None) =>
                match rutas with
                | [] => Responds (reject "No se recibieron archivos válidos")
                | _ :: _ =>
                    match start_thread io cuenta rutas with
                    | Some e => Raises e rutas
                    | None =>
                        Responds
                          {| response_key := "status";
                             response_value := "Subida iniciada";
                             response_code := 202; saved := rutas;
                             started := [(cuenta, rutas)] |}
                    end
                end
            end
      end
  end.


(** ** Reading a trace *)

Definition calls (evs : list event) : nat :=
  List.length (filter (fun ev => match ev with ENextChunk => true | _ => false end) evs).

Fixpoint sleeps (evs : list event) : list Q :=
  match evs with
  | [] => []
  | ESleep d :: evs' => d :: sleeps evs'
  | _ :: evs' => sleeps evs'
  end.

Fixpoint statuses (evs : list event) : list string :=
  match evs with
  | [] => []
  | EStatus msg :: evs' => msg :: statuses evs'
  | _ :: evs' => statuses evs'
  end.

Fixpoint progresses (evs : list event) : list Z :=
  match evs with
  | [] => []
  | EProgress v :: evs' => v :: progresses evs'
  | _ :: evs' => progresses evs'
  end.

Fixpoint removals (evs : list event) : list string :=
  match evs with
  | [] => []
  | ERemove ruta :: evs' => ruta :: removals evs'
  | _ :: evs' => removals evs'
  end.

(** ** Reading a request *)

(** What the [n]-th call (from 0) of [next_chunk] on a request does. *)
Fixpoint call_result (w : World) (n : nat) (s : session w) : chunk_result :=
  match n with
  | O => fst (next_chunk w s)
  | S n' => call_result w n' (snd (next_chunk w s))
  end.

(** The first [n] calls of [next_chunk] on a request all raise an
    [HttpError] or [OSError] that the classifier takes for transient. *)
Fixpoint fails_transiently (w : World) (n : nat) (s : session w) : bool :=
  match n with
  | O => true
  | S n' =>
      match next_chunk w s with
      | (Raised e, s') =>
          is_http_or_os e && is_transient e && fails_transiently w n' s'
      | (Returned _ _, _) => false
      end
  end.

(** The fractions a request reports to the inner loop of [upload_files],
    turn after turn: those of the statuses [next_chunk_with_retry] returns,
    up to the turn that reports the transfer done or raises, or whose
    fraction has no percentage. *)
Fixpoint reported_fractions (w : World) (fuel : nat) (request : session w)
    : list Q :=
  match fuel with
  | O => []
  | S fuel' =>
      let r := next_chunk_with_retry w default_max_retries default_base_delay request in
      match run_result r with
      | Raised _ => []
      | Returned status done =>
          match status with Some fraction => [fraction] | None => [] end
          ++ match report_progress status with
             | inl _ => []
             | inr _ =>
                 if done then [] else reported_fractions w fuel' (run_session r)
             end
      end
  end.

(** The percentage of a fraction of [0, 1], where no conversion
    overflows: the floor of the double of the product. *)
Definition percent_of_unit (x : Q) : Z :=
  Qfloor (Double.nearest (Double.nearest x * 100)%Q).

(** The percentages of a list of fractions, up to the first that has
    none. *)
Fixpoint percents (fractions : list Q) : list Z :=
  match fractions with
  | [] => []
  | fraction :: rest =>
      match percent fraction with
      | inl _ => []
      | inr v => v :: percents rest
      end
  end.

(** The same conversion with the kernel's binary64 arithmetic, for a
    session that has sent [sent] bytes of [size]:
    [float(sent) / float(size)] is [status.progress()]. *)
Fixpoint float_of_nat (n : nat) : PrimFloat.float :=
  match n with
  | O => PrimFloat.zero
  | S n' => PrimFloat.add (float_of_nat n') PrimFloat.one
  end.

(** [v <= float(sent) / float(size) * 100 < v + 1], the percentage [v]
    being that of [percent]. *)
Definition percent_agrees (sent size : nat) : bool :=
  let y := PrimFloat.mul (PrimFloat.div (float_of_nat sent) (float_of_nat size))
                         (float_of_nat 100) in
  match percent (Z.of_nat sent # Pos.of_nat size) with
  | inl _ => false
  | inr v =>
      PrimFloat.leb (float_of_nat (Z.to_nat v)) y
      && PrimFloat.ltb y (float_of_nat (S (Z.to_nat v)))
  end.

(** ** Reading a batch *)

(** A computation ended, however it did. *)
Definition ends {A : Type} (m : M A) : bool :=
  match m with
  | Some _ => true
  | None => false
  end.

(** A computation ended without raising. *)
Definition ends_ok {A : Type} (m : M A) : bool :=
  match m with
  | Some (_, Ok _) => true
  | _ => false
  end.

(** Every file of [rutas], the first of them at index [i], is transferred
    to the end. *)
Fixpoint all_uploaded (w : World) (fuel : nat) (carpeta_id : string)
    (total : nat) (i : nat) (rutas : list string) : bool :=
  match rutas with
  | [] => true
  | ruta :: rest =>
      ends_ok (upload_one w fuel carpeta_id total i ruta)
      && all_uploaded w fuel carpeta_id total (S i) rest
  end.

(** The upload-start messages of the files [rutas], the first of them at
    index [i]. *)
Fixpoint start_messages (total : nat) (i : nat) (rutas : list string)
    : list string :=
  match rutas with
  | [] => []
  | ruta :: rest =>
      subiendo i total (PyStr.basename ruta) :: start_messages total (S i) rest
  end.


(** ** A scripted world, to run the engine on concrete batches *)

Module Scripted.

(** A request is the list of what its next calls of [next_chunk] do; a
    request whose script is used up reports the transfer done. *)
Definition script : Type := list chunk_result.

Definition scripted_next_chunk (s : script) : chunk_result * script :=
  match s with
  | [] => (Returned None true, [])
  | o :: s' => (o, s')
  end.

Definition FileNotFoundError (ruta : string) : exn :=
  mk_exn BOSError "FileNotFoundError"
         ("[Errno 2] No such file or directory: " +++ ruta).

(** A world with one account table, a script for each staged file, and the
    files [os.remove] fails on. *)
Definition world (cuentas : list (string * list (string * string)))
    (scripts : list (string * script)) (locked : list string) : World :=
  {| CUENTAS := cuentas;
     UPLOAD_DIR := "temp_uploads";
     py_repr := fun s => "'" +++ s +++ "'";
     secure_filename := fun s => s;
     credentials := fun _ => None;
     session := script;
     create_request := fun ruta _ _ =>
       match dict_get ruta scripts with
       | Some s => inr s
       | None => inl (FileNotFoundError ruta)
       end;
     next_chunk := scripted_next_chunk;
     os_remove := fun ruta => negb (existsb (String.eqb ruta) locked) |}.

Definition una_cuenta : list (string * list (string * string)) :=
  [("penal", [("credenciales", "token_penal.json"); ("carpeta", "folder-1")])].

(** Some errors a chunk call raises. *)
Definition reset_by_peer : exn :=
  mk_exn BOSError "ConnectionResetError" "[Errno 104] Connection reset by peer".

Definition not_found : exn :=
  mk_exn BHttpError "HttpError" "<HttpError 404 when requesting None returned Not Found>".

Definition value_error_timeout : exn :=
  mk_exn BException "ValueError" "timeout".

(** A world with no configuration and no staged file, for requests built
    by hand. *)
Definition bare : World := world [] [] [].

(** Three staged files: the first is sent in two chunks, the second meets a
    connection reset, is retried, and is then refused for good; the third
    would go through.  [os.remove] fails on the second. *)
Definition tres_archivos : list string :=
  ["temp_uploads/a.pdf"; "temp_uploads/b.pdf"; "temp_uploads/c.pdf"].

Definition tres : World :=
  world una_cuenta
    [("temp_uploads/a.pdf", [Returned (Some 0.5%Q) false; Returned None true]);
     ("temp_uploads/b.pdf", [Raised reset_by_peer; Returned (Some 0.25%Q) false;
                             Raised not_found]);
     ("temp_uploads/c.pdf", [Returned None true])]
    ["temp_uploads/b.pdf"].

(** Two staged files that both go through. *)
Definition dos_archivos : list string :=
  ["temp_uploads/a.pdf"; "temp_uploads/c.pdf"].

(** A request whose remote reports growing fractions, up to the whole. *)
Definition avanza : World :=
  world una_cuenta
    [("temp_uploads/v.bin", [Returned (Some 0.25%Q) false;
                             Returned (Some 0.5%Q) false;
                             Returned (Some 1%Q) true])]
    [].

(** A request whose remote reports a fraction that goes back, as after a
    resumption from an earlier offset. *)
Definition retrocede : World :=
  world una_cuenta
    [("temp_uploads/r.bin", [Returned (Some 0.5%Q) false;
                             Returned (Some 0.25%Q) false;
                             Returned None true])]
    [].

End Scripted.

(** ** The rest of a request, and of a trace *)

(** The request after [n] calls of [next_chunk]. *)
Fixpoint state_after (w : World) (n : nat) (s : session w) : session w :=
  match n with
  | O => s
  | S n' => state_after w n' (snd (next_chunk w s))
  end.

(** A trace without its log lines. *)
Definition without_prints (evs : list event) : list event :=
  filter (fun ev => match ev with EPrint _ => false | _ => true end) evs.

(** The calls and sleeps of a run that retries the attempts [first],
    [first + 1], ... [first + retries - 1]: each failed call is followed by
    the sleep of its attempt, and a last call ends the run. *)
Definition calls_and_sleeps (base_delay : Q) (first retries : nat) : list event :=
  flat_map (fun n => [ENextChunk; ESleep (sleep_s base_delay n)]) (seq first retries)
  ++ [ENextChunk].

(** The seconds slept in all. *)
Fixpoint total_sleep (evs : list event) : Q :=
  match evs with
  | [] => 0%Q
  | ESleep d :: evs' => (d + total_sleep evs')%Q
  | _ :: evs' => total_sleep evs'
  end.

(** ** Start-up: [load_config] and the module-level lookups *)

(** A JSON value, as [json.load] returns it; an object is kept as the
    association list of its members. *)
#[warnings="-register-all"]
Inductive json : Type :=
| JNull
| JBool (b : bool)
| JNumber (q : Q)
| JString (s : string)
| JArray (items : list json)
| JObject (members : list (string * json)).

(** The configuration file: absent, or what [open] and [json.load] make of
    it, a value or an exception. *)
Definition config_file : Type := option (exn + json).

(** The environment variables that name the files, each set or not. *)
Record Environ : Type := {
  env_CONFIG_FILE : option string;
  env_OAUTH_CLIENT_FILE : option string
}.

(** [os.environ.get(name, default)]. *)
Definition environ_get (value : option string) (default : string) : string :=
  match value with
  | Some v => v
  | None => default
  end.

Definition CONFIG_FILE (env : Environ) : string :=
  environ_get (env_CONFIG_FILE env) "config.json".

Definition DEFAULT_CREDENTIALS_FILE (env : Environ) : string :=
  environ_get (env_OAUTH_CLIENT_FILE env) "credentials.json".

(** The texts Python gives to its exceptions. *)
Record PyText : Type := {
  repr_of : string -> string;         (* repr(s) of a str, the text of a KeyError *)
  not_a_container : json -> string;   (* of the TypeError of [key in v] *)
  bad_subscript : json -> string      (* of the TypeError of [v[key]] *)
}.

Definition TypeError (text : string) : exn := mk_exn BException "TypeError" text.

(** [key in v], which raises [TypeError] on a value that is no container:
    a member of an object, an item of an array, a part of a string. *)
Definition json_in (key : string) (v : json) : option bool :=
  match v with
  | JObject members => Some (dict_mem key members)
  | JArray items =>
      Some (existsb (fun item => match item with
                                 | JString s => (s =? key)%string
                                 | _ => false
                                 end) items)
  | JString s => Some (PyStr.contains key s)
  | JNull | JBool _ | JNumber _ => None
  end.

(** [v[key]] for a string [key]: the member of an object, [KeyError] when
    it has none, [TypeError] on any other value. *)
Definition json_subscript (py : PyText) (v : json) (key : string) : exn + json :=
  match v with
  | JObject members =>
      match dict_get key members with
      | Some member => inr member
      | None => inl (mk_exn BException "KeyError" (repr_of py key))
      end
  | _ => inl (TypeError (bad_subscript py v))
  end.

(** [load_config()]. *)
Definition load_config (py : PyText) (env : Environ) (file : config_file)
    : exn + json :=
  match file with
  | None =>
      inl (mk_exn BOSError "FileNotFoundError"
             ("No se encontró " +++ CONFIG_FILE env))
  | Some (inl e) => inl e
  | Some (inr cfg) =>
      match json_in "cuentas" cfg with
      | None => inl (TypeError (not_a_container py cfg))
      | Some false =>
          inl (mk_exn BException "KeyError"
                 (repr_of py "config.json debe contener la clave 'cuentas'"))
      | Some true => inr cfg
      end
  end.

(** What start-up binds: [CUENTAS] and [CREDENTIALS_FILE]. *)
Record startup_state : Type := {
  st_CUENTAS : json;
  st_CREDENTIALS_FILE : json
}.

(** Lines 46 to 48: [CONFIG = load_config()], [CUENTAS = CONFIG["cuentas"]],
    [CREDENTIALS_FILE = CONFIG.get("oauth_client", DEFAULT_CREDENTIALS_FILE)].
    The third is reached with an object only. *)
Definition startup (py : PyText) (env : Environ) (file : config_file)
    : exn + startup_state :=
  match load_config py env file with
  | inl e => inl e
  | inr CONFIG =>
      match json_subscript py CONFIG "cuentas" with
      | inl e => inl e
      | inr cuentas =>
          inr {| st_CUENTAS := cuentas;
                 st_CREDENTIALS_FILE :=
                   match CONFIG with
                   | JObject members =>
                       match dict_get "oauth_client" members with
                       | Some v => v
                       | None => JString (DEFAULT_CREDENTIALS_FILE env)
                       end
                   | _ => JString (DEFAULT_CREDENTIALS_FILE env)
                   end |}
      end
  end.

(** ** The credential steps of [get_service] *)

(** A [Credentials] object, by what [get_service] reads of it. *)
Record credentials_t : Type := {
  cred_valid : bool;            (* creds.valid *)
  cred_expired : bool;          (* creds.expired *)
  cred_refresh_token : bool;    (* the truth value of creds.refresh_token *)
  cred_json : string            (* creds.to_json() *)
}.

(** What the credential steps do to the outside, in program order. *)
Inductive auth_event : Type :=
| ALoad (token_file : string)              (* Credentials.from_authorized_user_file *)
| APrint (msg : string)                    (* print(msg) *)
| ARefresh                                 (* creds.refresh(Request()) *)
| AFlow (client_file : string)             (* InstalledAppFlow...run_local_server *)
| AWrite (token_file content : string)     (* open(token_file, "w") and f.write *)
| ABuild.                                  (* build("drive", "v3", ...) *)

(** The libraries and the file system behind the credential steps. *)
Record AuthEnv : Type := {
  path_exists : string -> bool;                              (* os.path.exists *)
  from_authorized_user_file : string -> exn + credentials_t;
  refresh : credentials_t -> exn + credentials_t;            (* the object after refresh *)
  run_local_server : string -> exn + credentials_t;          (* the flow on a client file *)
  write_text : string -> string -> option exn;               (* Some e when the write raises e *)
  build : credentials_t -> option exn                        (* Some e when build raises e *)
}.

(** Lines 95 to 98: the token is written, then the service is built. *)
Definition write_and_build (env : AuthEnv) (token_file : string)
    (creds : credentials_t) (evs : list auth_event)
    : list auth_event * option exn :=
  match write_text env token_file (cred_json creds) with
  | Some e => (evs ++ [AWrite token_file (cred_json creds)], Some e)
  | None =>
      (evs ++ [AWrite token_file (cred_json creds); ABuild], build env creds)
  end.

(** Lines 85 to 98, with [creds] as lines 80 to 83 left it. *)
Definition obtain_and_build (env : AuthEnv) (client_file token_file : string)
    (creds : option credentials_t) (evs : list auth_event)
    : list auth_event * option exn :=
  let run_flow :=
    let evs1 := evs ++ [APrint "[auth] Ejecutando flujo local para obtener token";
                        AFlow client_file] in
    match run_local_server env client_file with
    | inl e => (evs1, Some e)
    | inr fresh => write_and_build env token_file fresh evs1
    end in
  match creds with
  | None => run_flow
  | Some c =>
      if cred_valid c then (evs ++ [ABuild], build env c)
      else if cred_expired c && cred_refresh_token c then
        let evs1 := evs ++ [APrint "[auth] Refrescando token…"; ARefresh] in
        match refresh env c with
        | inl e => (evs1, Some e)
        | inr refreshed => write_and_build env token_file refreshed evs1
        end
      else run_flow
  end.

(** Lines 80 to 98 of [get_service]: the events, and the exception raised
    if any ([None] when the service is returned).  These are the steps the
    field [credentials] of a [World] stands for. *)
Definition credential_steps (env : AuthEnv) (client_file token_file : string)
    : list auth_event * option exn :=
  if path_exists env token_file then
    match from_authorized_user_file env token_file with
    | inl e => ([ALoad token_file], Some e)
    | inr c => obtain_and_build env client_file token_file (Some c) [ALoad token_file]
    end
  else obtain_and_build env client_file token_file None [].

(** Reading the events of the credential steps. *)
Fixpoint writes (evs : list auth_event) : list (string * string) :=
  match evs with
  | [] => []
  | AWrite f c :: evs' => (f, c) :: writes evs'
  | _ :: evs' => writes evs'
  end.

Definition refreshes (evs : list auth_event) : nat :=
  List.length (filter (fun ev => match ev with ARefresh => true | _ => false end) evs).

Definition flows (evs : list auth_event) : nat :=
  List.length (filter (fun ev => match ev with AFlow _ => true | _ => false end) evs).

(** ** The page *)

(** [list(d.keys())]: each key once, in the order of first appearance. *)
Fixpoint dict_keys {V : Type} (d : list (string * V)) : list string :=
  match d with
  | [] => []
  | (k, _) :: d' => k :: filter (fun k' => negb (k' =? k)%string) (dict_keys d')
  end.

(** [home()]: the accounts handed to the template. *)
Definition home (w : World) : list string := dict_keys (CUENTAS w).

(** ** More scripted worlds *)

Module ScriptedStartup.

Definition py : PyText :=
  {| repr_of := fun s => "'" +++ s +++ "'";
     not_a_container := fun _ => "argument is not iterable";
     bad_subscript := fun _ => "indices must be integers" |}.

(** No variable is set. *)
Definition sin_variables : Environ :=
  {| env_CONFIG_FILE := None; env_OAUTH_CLIENT_FILE := None |}.

End ScriptedStartup.

Module ScriptedAuth.

Definition stored_valid : credentials_t :=
  {| cred_valid := true; cred_expired := false; cred_refresh_token := true;
     cred_json := "{stored}" |}.

Definition stored_expired : credentials_t :=
  {| cred_valid := false; cred_expired := true; cred_refresh_token := true;
     cred_json := "{stale}" |}.

Definition refreshed : credentials_t :=
  {| cred_valid := true; cred_expired := false; cred_refresh_token := true;
     cred_json := "{refreshed}" |}.

Definition RefreshError : exn :=
  mk_exn BException "RefreshError" "invalid_grant: Token has been expired or revoked.".

(** A token file is present and holds [stored]; [refresh] does [refreshing];
    the local flow always yields [refreshed]; writes and [build] go
    through. *)
Definition env (stored : credentials_t) (refreshing : exn + credentials_t)
    : AuthEnv :=
  {| path_exists := fun _ => true;
     from_authorized_user_file := fun _ => inr stored;
     refresh := fun _ => refreshing;
     run_local_server := fun _ => inr refreshed;
     write_text := fun _ _ => None;
     build := fun _ => None |}.

End ScriptedAuth.

Module ScriptedMore.

Definition KeyboardInterrupt : exn :=
  mk_exn BBaseException "KeyboardInterrupt" EmptyString.

(** The second of two files is interrupted from the keyboard in its second
    chunk call. *)
Definition interrumpido : World :=
  Scripted.world Scripted.una_cuenta
    [("temp_uploads/a.pdf", [Returned (Some 0.5%Q) false; Returned None true]);
     ("temp_uploads/k.pdf", [Returned (Some 0.5%Q) false; Raised KeyboardInterrupt])]
    [].

Definition interrumpido_archivos : list string :=
  ["temp_uploads/a.pdf"; "temp_uploads/k.pdf"].

(** An account configured without its folder. *)
Definition sin_carpeta : World :=
  Scripted.world [("penal", [("credenciales", "token_penal.json")])] [] [].

(** Two accounts; a form with three files, one of them without a name, and
    a sanitizer that keeps letters as they are and empties the name "..". *)
Definition dos_cuentas : World :=
  {| CUENTAS := [("penal", [("credenciales", "t1.json"); ("carpeta", "f1")]);
                 ("civil", [("credenciales", "t2.json"); ("carpeta", "f2")])];
     UPLOAD_DIR := "temp_uploads";
     py_repr := fun s => "'" +++ s +++ "'";
     secure_filename := fun s => if (s =? "..")%string then EmptyString else s;
     credentials := fun _ => None;
     session := Scripted.script;
     create_request := fun _ _ _ => inr [Returned None true];
     next_chunk := Scripted.scripted_next_chunk;
     os_remove := fun _ => true |}.

(** Every [f.save] returns and the thread starts. *)
Definition sin_fallos : Intake :=
  {| save := fun _ _ => None; start_thread := fun _ _ => None |}.

Definition disco_lleno : exn :=
  mk_exn BOSError "OSError" "[Errno 28] No space left on device".

(** [f.save] raises on the file without a name. *)
Definition falla_sin_nombre : Intake :=
  {| save := fun f _ => match filename f with
                        | None => Some disco_lleno
                        | Some _ => None
                        end;
     start_thread := fun _ _ => None |}.

Definition formulario : form_request :=
  {| form_cuenta := Some "civil";
     form_archivos := [ {| filename := Some "a.pdf" |};
                        {| filename := Some ".." |};
                        {| filename := None |} ] |}.

End ScriptedMore.

(** * Properties *)

(** ** Strings *)

Section StringFacts.

Lemma append_empty_r (s : string) : s +++ EmptyString = s.
Proof. induction s as [|c s IH]; simpl; [reflexivity | now rewrite IH]. Qed.

Lemma append_assoc (a b c : string) : (a +++ b) +++ c = a +++ b +++ c.
Proof. induction a as [|x a IH]; simpl; [reflexivity | now rewrite IH]. Qed.

Lemma lower_append (a b : string) :
  PyStr.lower (a +++ b) = PyStr.lower a +++ PyStr.lower b.
Proof. induction a as [|x a IH]; simpl; [reflexivity | now rewrite IH]. Qed.

Lemma starts_with_iff (p s : string) :
  PyStr.starts_with p s = true <-> exists t, s = p +++ t.
Proof.
  revert s. induction p as [|a p IH]; intros s; simpl.
  - split; [intros _; now exists s | reflexivity].
  - destruct s as [|b s].
    + split; [discriminate | intros [t Ht]; discriminate].
    + rewrite andb_true_iff, Ascii.eqb_eq, IH. split.
      * intros [-> [t ->]]. now exists t.
      * intros [t Ht]. injection Ht as -> ->. split; [reflexivity | now exists t].
Qed.

Lemma contains_iff (sub s : string) :
  PyStr.contains sub s = true <-> PyStr.Infix sub s.
Proof.
  unfold PyStr.Infix. induction s as [|c s IH].
  - simpl. rewrite orb_false_r, starts_with_iff. split.
    + intros [t Ht]. now exists EmptyString, t.
    + intros [pre [post H]]. destruct pre; [now exists post | discriminate].
  - cbn [PyStr.contains]. rewrite orb_true_iff, starts_with_iff, IH. split.
    + intros [[t Ht] | [pre [post H]]].
      * now exists EmptyString, t.
      * exists (String c pre), post. simpl. now rewrite H.
    + intros [pre [post H]]. destruct pre as [|x pre].
      * left. now exists post.
      * right. simpl in H. injection H as _ H. now exists pre, post.
Qed.

Lemma Infix_append (sub pre post : string) :
  PyStr.Infix sub (pre +++ sub +++ post).
Proof. now exists pre, post. Qed.

End StringFacts.

(** ** The classifier *)

Lemma is_transient_iff (err : exn) :
  is_transient err = true <->
  exists sig, In sig transient_signatures /\
              PyStr.Infix sig (PyStr.lower (exn_text err)).
Proof.
  unfold is_transient. cbv zeta. rewrite existsb_exists.
  split; intros [sig [Hin H]]; exists sig; (split; [exact Hin |]);
    now apply contains_iff.
Qed.

(** A signature is found whatever surrounds it, in the text as the error
    gives it when the signature is written in lower case. *)
Lemma is_transient_around (b : exn_base) (name pre post sig : string) :
  In sig transient_signatures ->
  is_transient (mk_exn b name (pre +++ sig +++ post)) = true.
Proof.
  intros Hin. apply is_transient_iff. exists sig. split; [exact Hin |].
  cbn [exn_text]. rewrite !lower_append.
  assert (Hlow : PyStr.lower sig = sig).
  { simpl in Hin.
    repeat (destruct Hin as [<- | Hin]; [reflexivity |]). contradiction. }
  rewrite Hlow. apply Infix_append.
Qed.

(** C1, as amended.  [is_transient] answers true exactly when the
    lower-cased text of the error contains one of the twelve signatures of
    the source: "eof occurred", "connection reset", "broken pipe",
    "timed out", "timeout", "ssl", "tls", "reset by peer",
    "transport closed", "503", "500", "429"; so every text that contains one
    of them is transient, and the texts "invalid_grant" and "404" are not. *)
Theorem is_transient_signatures :
  (forall err : exn,
      is_transient err = true <->
      exists sig, In sig transient_signatures /\
                  PyStr.Infix sig (PyStr.lower (exn_text err)))
  /\ (forall (b : exn_base) (name pre post : string),
         Forall (fun sig => is_transient (mk_exn b name (pre +++ sig +++ post)) = true)
                transient_signatures)
  /\ (forall (b : exn_base) (name : string),
         is_transient (mk_exn b name "invalid_grant") = false
         /\ is_transient (mk_exn b name "404") = false).
Proof.
  split; [exact is_transient_iff |]. split.
  - intros b name pre post. apply Forall_forall. intros sig Hin.
    now apply is_transient_around.
  - intros b name. split; reflexivity.
Qed.

(** C1 as the specification words it fails on the substring "reset": it is
    one of the eight substrings listed, the text "reset" contains it, and the
    classifier answers false, for its signatures are "connection reset" and
    "reset by peer". *)
Lemma is_transient_bare_reset :
  In "reset" spec_signatures
  /\ PyStr.Infix "reset" (exn_text (mk_exn BOSError "OSError" "reset"))
  /\ is_transient (mk_exn BOSError "OSError" "reset") = false.
Proof.
  split; [simpl; tauto |]. split; [| reflexivity].
  exists EmptyString, EmptyString. reflexivity.
Qed.

(** ** The retry loop *)

Section RetryLoop.

Variable w : World.
Variable max_retries : nat.
Variable base_delay : Q.

(** One turn of the loop, as the source reads. *)
Lemma retry_loop_turn (intento : nat) (s : session w) :
  retry_loop w max_retries base_delay intento s =
  match next_chunk w s with
  | (Returned status done, s') =>
      mk_run (Returned status done) s' intento [ENextChunk]
  | (Raised e, s') =>
      if is_http_or_os e && (intento <? max_retries)%nat && is_transient e
      then run_cons [ENextChunk;
                     EPrint (retry_message intento e);
                     ESleep (sleep_s base_delay intento)]
             (retry_loop w max_retries base_delay (intento + 1) s')
      else mk_run (Raised e) s' intento [ENextChunk]
  end.
Proof.
  simp retry_loop. destruct (next_chunk w s) as [[status done | e] s']; simpl.
  - reflexivity.
  - destruct (is_http_or_os e); simpl; [| reflexivity].
    destruct (lt_dec intento max_retries) as [Hlt | Hge]; simpl.
    + rewrite (proj2 (Nat.ltb_lt _ _) Hlt). simpl.
      destruct (is_transient e); reflexivity.
    + rewrite (proj2 (Nat.ltb_nlt _ _) Hge). reflexivity.
Qed.

(** Induction along the turns of the loop. *)
Lemma retry_loop_turns (P : nat -> session w -> retry_run (session w) -> Prop) :
  (forall intento s status done s',
      next_chunk w s = (Returned status done, s') ->
      P intento s (mk_run (Returned status done) s' intento [ENextChunk])) ->
  (forall intento s e s',
      next_chunk w s = (Raised e, s') ->
      is_http_or_os e && (intento <? max_retries)%nat && is_transient e = false ->
      P intento s (mk_run (Raised e) s' intento [ENextChunk])) ->
  (forall intento s e s',
      next_chunk w s = (Raised e, s') ->
      is_http_or_os e = true -> intento < max_retries -> is_transient e = true ->
      P (intento + 1) s' (retry_loop w max_retries base_delay (intento + 1) s') ->
      P intento s
        (run_cons [ENextChunk;
                   EPrint (retry_message intento e);
                   ESleep (sleep_s base_delay intento)]
           (retry_loop w max_retries base_delay (intento + 1) s'))) ->
  forall intento s, P intento s (retry_loop w max_retries base_delay intento s).
Proof.
  intros Hret Hraise Hretry intento.
  remember (max_retries - intento) as k eqn:Hk.
  revert intento Hk. induction k as [|k IH]; intros intento Hk s;
    rewrite retry_loop_turn;
    destruct (next_chunk w s) as [[status done | e] s'] eqn:Hnext;
    try (now apply Hret).
  - assert (Hge : (intento <? max_retries)%nat = false)
      by (apply Nat.ltb_ge; lia).
    rewrite Hge, andb_false_r. simpl. apply Hraise; [exact Hnext |].
    now rewrite Hge, andb_false_r.
  - destruct (is_http_or_os e && (intento <? max_retries)%nat && is_transient e)
      eqn:Hcond.
    + apply andb_true_iff in Hcond as [Hcond Htr].
      apply andb_true_iff in Hcond as [Hty Hlt].
      apply Nat.ltb_lt in Hlt.
      apply (Hretry intento s e s'); try assumption.
      apply IH. lia.
    + now apply Hraise.
Qed.

(** The counter only grows, by one for each call but the last, and stays
    under the bound. *)
Lemma retry_loop_counts (intento : nat) (s : session w) :
  let r := retry_loop w max_retries base_delay intento s in
  intento <= run_intento r
  /\ calls (run_events r) = S (run_intento r - intento)
  /\ sleeps (run_events r)
     = map (sleep_s base_delay) (seq intento (run_intento r - intento))
  /\ (intento <= max_retries -> run_intento r <= max_retries).
Proof.
  cbv zeta. revert intento s.
  apply (retry_loop_turns (fun intento _ r =>
    intento <= run_intento r
    /\ calls (run_events r) = S (run_intento r - intento)
    /\ sleeps (run_events r)
       = map (sleep_s base_delay) (seq intento (run_intento r - intento))
    /\ (intento <= max_retries -> run_intento r <= max_retries))).
  - intros intento s status done s' _. cbn. rewrite Nat.sub_diag.
    repeat split; auto.
  - intros intento s e s' _ _. cbn. rewrite Nat.sub_diag.
    repeat split; auto.
  - intros intento s e s' _ _ Hlt _. rewrite Nat.add_1_r.
    set (r := retry_loop w max_retries base_delay (S intento) s').
    intros (Hle & Hcalls & Hsleeps & Hmax).
    cbn [run_cons run_intento run_events].
    replace (run_intento r - intento) with (S (run_intento r - S intento))
      by lia.
    repeat split.
    + lia.
    + cbn. unfold calls in Hcalls. now rewrite Hcalls.
    + cbn. now rewrite Hsleeps.
    + intros _. apply Hmax. lia.
Qed.

(** When the calls keep failing transiently, the loop is left by the
    failure that finds the counter at the bound. *)
Lemma retry_loop_exhausts (intento : nat) (s : session w) :
  intento <= max_retries ->
  fails_transiently w (S (max_retries - intento)) s = true ->
  let r := retry_loop w max_retries base_delay intento s in
  run_result r = call_result w (max_retries - intento) s
  /\ (exists e, run_result r = Raised e)
  /\ run_intento r = max_retries.
Proof.
  cbv zeta. revert intento s.
  apply (retry_loop_turns (fun intento s r =>
    intento <= max_retries ->
    fails_transiently w (S (max_retries - intento)) s = true ->
    run_result r = call_result w (max_retries - intento) s
    /\ (exists e, run_result r = Raised e)
    /\ run_intento r = max_retries)).
  - intros intento s status done s' Hnext _ Hfail.
    cbn [fails_transiently] in Hfail. now rewrite Hnext in Hfail.
  - intros intento s e s' Hnext Hcond Hle Hfail.
    cbn [fails_transiently] in Hfail. rewrite Hnext in Hfail.
    apply andb_true_iff in Hfail as [Hfail _].
    apply andb_true_iff in Hfail as [Hty Htr].
    rewrite Hty, Htr, andb_true_r in Hcond. simpl in Hcond.
    apply Nat.ltb_ge in Hcond.
    assert (Heq : intento = max_retries) by lia. subst intento.
    rewrite Nat.sub_diag. cbn. rewrite Hnext. cbn.
    repeat split; eauto.
  - intros intento s e s' Hnext _ Hlt _ IH Hle Hfail.
    replace (max_retries - intento) with (S (max_retries - (intento + 1))) in *
      by lia.
    cbn [fails_transiently] in Hfail. rewrite Hnext in Hfail.
    apply andb_true_iff in Hfail as [_ Hfail].
    cbn [call_result]. rewrite Hnext. cbn [snd].
    cbn [run_cons run_result run_intento].
    apply IH; [lia | exact Hfail].
Qed.

End RetryLoop.

(** C2.  Whatever the chunk calls do, one call of [next_chunk_with_retry]
    makes at most [max_retries + 1] calls of [next_chunk] and sleeps at most
    [max_retries] times, one sleep before each call but the first; and when
    the first [max_retries + 1] calls all fail transiently, it ends by raising
    the error of the last of them, after exactly [max_retries + 1] calls. *)
Theorem retry_bound (w : World) (max_retries : nat) (base_delay : Q)
    (request : session w) :
  let r := next_chunk_with_retry w max_retries base_delay request in
  (calls (run_events r) <= max_retries + 1
   /\ List.length (sleeps (run_events r)) <= max_retries
   /\ calls (run_events r) = List.length (sleeps (run_events r)) + 1)
  /\ (fails_transiently w (max_retries + 1) request = true ->
      run_result r = call_result w max_retries request
      /\ (exists e, run_result r = Raised e)
      /\ calls (run_events r) = max_retries + 1
      /\ List.length (sleeps (run_events r)) = max_retries).
Proof.
  cbv zeta. unfold next_chunk_with_retry.
  destruct (retry_loop_counts w max_retries base_delay 0 request)
    as (_ & Hcalls & Hsleeps & Hmax).
  rewrite Nat.sub_0_r in Hcalls, Hsleeps. specialize (Hmax (Nat.le_0_l _)).
  assert (Hlen : List.length
                   (sleeps (run_events (retry_loop w max_retries base_delay 0 request)))
                 = run_intento (retry_loop w max_retries base_delay 0 request)).
  { rewrite Hsleeps, length_map. apply length_seq. }
  split.
  - rewrite Hlen, Hcalls. lia.
  - intros Hfail. rewrite Nat.add_1_r in Hfail.
    destruct (retry_loop_exhausts w max_retries base_delay 0 request)
      as (Hres & Hraised & Hint).
    + lia.
    + now rewrite Nat.sub_0_r.
    + rewrite Nat.sub_0_r in Hres. rewrite Hlen, Hcalls, Hint.
      repeat split; [exact Hres | exact Hraised | lia].
Qed.

(** With the default bound of 7: eight connection resets in a row, and the
    eighth is raised after eight calls and seven sleeps. *)
Lemma retry_bound_witness :
  let request := repeat (Raised Scripted.reset_by_peer) 9 in
  let r := next_chunk_with_retry Scripted.bare default_max_retries
             default_base_delay request in
  fails_transiently Scripted.bare (default_max_retries + 1) request = true
  /\ run_result r = Raised Scripted.reset_by_peer
  /\ calls (run_events r) = 8
  /\ List.length (sleeps (run_events r)) = 7.
Proof.
  cbv zeta.
  assert (Hfail : fails_transiently Scripted.bare (default_max_retries + 1)
                    (repeat (Raised Scripted.reset_by_peer) 9) = true)
    by reflexivity.
  split; [exact Hfail |].
  destruct (proj2 (retry_bound Scripted.bare default_max_retries default_base_delay
                     (repeat (Raised Scripted.reset_by_peer) 9)) Hfail)
    as (Hres & _ & Hcalls & Hsleeps).
  split; [exact Hres |]. split; [exact Hcalls | exact Hsleeps].
Defined.

(** C10.  An exception that is neither an [HttpError] nor an [OSError]
    leaves the loop at once, at whatever turn it is raised: it is the result,
    the counter stays where it was, and the call of [next_chunk] is the only
    event, with no sleep; what the classifier would say of it plays no part. *)
Theorem other_exception_propagates (w : World) (max_retries : nat)
    (base_delay : Q) (intento : nat) (request request' : session w) (e : exn) :
  next_chunk w request = (Raised e, request') ->
  is_http_or_os e = false ->
  retry_loop w max_retries base_delay intento request
  = mk_run (Raised e) request' intento [ENextChunk].
Proof.
  intros Hnext Hty. rewrite retry_loop_turn, Hnext, Hty. reflexivity.
Qed.

(** A [ValueError] whose text is "timeout", which the classifier takes for
    transient, is raised by the first call and not retried. *)
Lemma other_exception_propagates_witness :
  is_transient Scripted.value_error_timeout = true
  /\ next_chunk_with_retry Scripted.bare default_max_retries default_base_delay
       [Raised Scripted.value_error_timeout; Returned None true]
     = mk_run (Raised Scripted.value_error_timeout) [Returned None true] 0
         [ENextChunk].
Proof.
  split; [reflexivity |].
  exact (other_exception_propagates Scripted.bare default_max_retries
           default_base_delay 0
           [Raised Scripted.value_error_timeout; Returned None true]
           [Returned None true] Scripted.value_error_timeout
           eq_refl eq_refl).
Defined.

(** ** The backoff delay *)

Section Backoff.

Local Open Scope Q_scope.

(** The jitter factor [1 + 0.12 * (intento % 3)]. *)
Let jitter (n : nat) : Q := 1 + 0.12 * inject_Z (Z.of_nat (n mod 3)).

Lemma jitter_bounds (n : nat) : 1 <= jitter n /\ jitter n <= 1.24.
Proof.
  unfold jitter. pose proof (Nat.mod_upper_bound n 3 ltac:(discriminate)) as Hlt.
  destruct (n mod 3)%nat as [|[|[|k]]]; [| | | lia];
    split; cbv; discriminate.
Qed.

Lemma pow2_positive (n : nat) : 0 < inject_Z (2 ^ Z.of_nat n).
Proof.
  rewrite <- (Zlt_Qlt 0). apply Z.pow_pos_nonneg; lia.
Qed.

Lemma pow2_succ (n : nat) :
  inject_Z (2 ^ Z.of_nat (S n)) == 2 * inject_Z (2 ^ Z.of_nat n).
Proof.
  rewrite Nat2Z.inj_succ, Z.pow_succ_r by lia. now rewrite inject_Z_mult.
Qed.

(** The expression of the source is the formula of the specification. *)
Lemma sleep_s_delayFor (base : Q) (n : nat) : sleep_s base n == delayFor base n.
Proof.
  unfold sleep_s, delayFor.
  rewrite Zpower_Qpower by lia. rewrite Nat2Z.inj_mod. reflexivity.
Qed.

Lemma sleep_s_zero (base : Q) : sleep_s base 0 == base.
Proof. unfold sleep_s. simpl. ring. Qed.

Lemma sleep_s_step (base : Q) (n : nat) :
  0 < base -> sleep_s base n < sleep_s base (S n).
Proof.
  intros Hpos. unfold sleep_s. fold (jitter n). fold (jitter (S n)).
  rewrite pow2_succ.
  destruct (jitter_bounds n) as [_ Hn]. destruct (jitter_bounds (S n)) as [HSn _].
  pose proof (pow2_positive n) as Hp.
  set (p := inject_Z (2 ^ Z.of_nat n)) in *.
  set (a := jitter n) in *. set (b := jitter (S n)) in *.
  assert (Hx : 0 < base * p) by (apply Qmult_lt_0_compat; assumption).
  apply Qlt_le_trans with (base * p * 2).
  - apply Qle_lt_trans with (base * p * 1.24).
    + apply Qmult_le_l; assumption.
    + apply Qmult_lt_l; [assumption | reflexivity].
  - setoid_replace (base * (2 * p) * b) with (base * p * (2 * b)) by ring.
    apply Qmult_le_l; [assumption |].
    setoid_replace 2 with (2 * 1) at 1 by ring.
    apply Qmult_le_l; [reflexivity | assumption].
Qed.

Lemma sleep_s_increasing (base : Q) (m n : nat) :
  0 < base -> (m < n)%nat -> sleep_s base m < sleep_s base n.
Proof.
  intros Hpos Hlt. induction Hlt as [|n Hlt IH].
  - now apply sleep_s_step.
  - apply Qlt_trans with (sleep_s base n); [exact IH | now apply sleep_s_step].
Qed.

End Backoff.

(** C4.  For a positive base delay the backoff delay grows strictly with the
    attempt index, and at index 0 it is the base delay; this holds of the
    expression of the source and of the formula of the specification. *)
Theorem backoff_strictly_increasing (base : Q) (m n : nat) :
  (0 < base)%Q -> m < n ->
  (sleep_s base m < sleep_s base n)%Q
  /\ (delayFor base m < delayFor base n)%Q
  /\ (sleep_s base 0 == base)%Q
  /\ (delayFor base 0 == base)%Q.
Proof.
  intros Hpos Hlt.
  pose proof (sleep_s_increasing base m n Hpos Hlt) as Hinc.
  repeat split.
  - exact Hinc.
  - now rewrite <- !sleep_s_delayFor.
  - apply sleep_s_zero.
  - rewrite <- sleep_s_delayFor. apply sleep_s_zero.
Qed.

(** With the default base delay of 1.2 seconds, attempts 2 and 3: the jitter
    falls from 1.24 to 1 and the delay still grows, from 5.952 to 9.6. *)
Lemma backoff_strictly_increasing_witness :
  (0 < default_base_delay)%Q /\ 2 < 3
  /\ (sleep_s default_base_delay 2 == 5.952)%Q
  /\ (sleep_s default_base_delay 3 == 9.6)%Q
  /\ (sleep_s default_base_delay 2 < sleep_s default_base_delay 3)%Q.
Proof.
  split; [reflexivity |]. split; [apply Nat.lt_succ_diag_r |].
  split; [reflexivity |]. split; [reflexivity |].
  exact (proj1 (backoff_strictly_increasing default_base_delay 2 3
                  eq_refl (Nat.lt_succ_diag_r 2))).
Defined.

(** ** Traces *)

Section Traces.

Lemma statuses_app (a b : list event) : statuses (a ++ b) = statuses a ++ statuses b.
Proof.
  induction a as [|ev a IH]; [reflexivity |].
  destruct ev; simpl; now rewrite IH.
Qed.

Lemma progresses_app (a b : list event) :
  progresses (a ++ b) = progresses a ++ progresses b.
Proof.
  induction a as [|ev a IH]; [reflexivity |].
  destruct ev; simpl; now rewrite IH.
Qed.

Lemma removals_app (a b : list event) : removals (a ++ b) = removals a ++ removals b.
Proof.
  induction a as [|ev a IH]; [reflexivity |].
  destruct ev; simpl; now rewrite IH.
Qed.

Lemma removals_map_ERemove (rutas : list string) : removals (map ERemove rutas) = rutas.
Proof. induction rutas as [|r rutas IH]; simpl; [reflexivity | now rewrite IH]. Qed.

Lemma statuses_map_ERemove (rutas : list string) : statuses (map ERemove rutas) = [].
Proof. induction rutas as [|r rutas IH]; simpl; [reflexivity | exact IH]. Qed.

End Traces.

(** ** The coordinator *)

Section Coordinator.

Variable w : World.

(** The retry loop calls no callback and removes nothing. *)
Lemma retry_loop_quiet (max_retries : nat) (base_delay : Q) (intento : nat)
    (s : session w) :
  let evs := run_events (retry_loop w max_retries base_delay intento s) in
  statuses evs = [] /\ progresses evs = [] /\ removals evs = [].
Proof.
  cbv zeta. revert intento s.
  apply (retry_loop_turns w max_retries base_delay (fun _ _ r =>
    statuses (run_events r) = [] /\ progresses (run_events r) = []
    /\ removals (run_events r) = [])).
  - intros; cbn; auto.
  - intros; cbn; auto.
  - intros intento s e s' _ _ _ _ IH. cbn. exact IH.
Qed.

(** The inner loop passes on the fractions the request reports, as
    percentages, and nothing else. *)
Lemma transfer_loop_events (fuel : nat) (request : session w)
    (evs : list event) (r : res unit) :
  transfer_loop w fuel request = Some (evs, r) ->
  statuses evs = [] /\ removals evs = []
  /\ progresses evs = percents (reported_fractions w fuel request).
Proof.
  revert request evs r. induction fuel as [|fuel IH]; intros request evs r H.
  - discriminate.
  - cbn [transfer_loop reported_fractions] in *.
    destruct (retry_loop_quiet default_max_retries default_base_delay 0 request)
      as (Hs & Hp & Hr).
    fold (next_chunk_with_retry w default_max_retries default_base_delay request)
      in Hs, Hp, Hr.
    set (run := next_chunk_with_retry w default_max_retries default_base_delay request)
      in *.
    destruct (run_result run) as [status done | e].
    + destruct status as [fraction |]; cbn [report_progress] in *;
        [destruct (percent fraction) as [e | v] eqn:Hv |].
      * injection H as <- <-. cbn. now rewrite Hv.
      * destruct done.
        -- injection H as <- <-.
           rewrite statuses_app, removals_app, progresses_app, Hs, Hr, Hp.
           cbn. now rewrite Hv.
        -- destruct (transfer_loop w fuel (run_session run)) as [[evs' r']|] eqn:Hrec;
             [| discriminate].
           injection H as <- <-.
           destruct (IH _ _ _ Hrec) as (I1 & I2 & I3).
           rewrite !statuses_app, !removals_app, !progresses_app, Hs, Hr, Hp,
             I1, I2, I3.
           cbn. now rewrite Hv.
      * destruct done.
        -- injection H as <- <-.
           rewrite statuses_app, removals_app, progresses_app, Hs, Hr, Hp.
           cbn. auto.
        -- destruct (transfer_loop w fuel (run_session run)) as [[evs' r']|] eqn:Hrec;
             [| discriminate].
           injection H as <- <-.
           destruct (IH _ _ _ Hrec) as (I1 & I2 & I3).
           rewrite !statuses_app, !removals_app, !progresses_app, Hs, Hr, Hp,
             I1, I2, I3.
           cbn. auto.
    + injection H as <- <-. auto.
Qed.

(** One file: the start message, progress 0, then the inner loop. *)
Lemma upload_one_turn (fuel : nat) (carpeta_id : string) (total i : nat)
    (ruta : string) :
  upload_one w fuel carpeta_id total i ruta =
  match create_request w ruta (PyStr.basename ruta) carpeta_id with
  | inl e =>
      Some ([EStatus (subiendo i total (PyStr.basename ruta)); EProgress 0], Raise e)
  | inr request =>
      match transfer_loop w fuel request with
      | None => None
      | Some (evs, r) =>
          Some (EStatus (subiendo i total (PyStr.basename ruta))
                  :: EProgress 0 :: evs, r)
      end
  end.
Proof.
  unfold upload_one, bind, emit, raise.
  destruct (create_request w ruta (PyStr.basename ruta) carpeta_id) as [e | request].
  - reflexivity.
  - destruct (transfer_loop w fuel request) as [[evs r]|]; reflexivity.
Qed.

Lemma upload_one_events (fuel : nat) (carpeta_id : string) (total i : nat)
    (ruta : string) (evs : list event) (r : res unit) :
  upload_one w fuel carpeta_id total i ruta = Some (evs, r) ->
  statuses evs = [subiendo i total (PyStr.basename ruta)] /\ removals evs = [].
Proof.
  rewrite upload_one_turn.
  destruct (create_request w ruta (PyStr.basename ruta) carpeta_id) as [e | request].
  - intros H. injection H as <- <-. auto.
  - destruct (transfer_loop w fuel request) as [[evs' r']|] eqn:Hloop;
      [| discriminate].
    intros H. injection H as <- <-.
    destruct (transfer_loop_events _ _ _ _ Hloop) as (Hs & Hr & _).
    cbn. now rewrite Hs, Hr.
Qed.

(** The loop over the files: what has been said when it is left. *)
Lemma upload_each_events (fuel : nat) (carpeta_id : string) (total : nat)
    (rutas : list string) (i : nat) (evs : list event) (r : res unit) :
  upload_each w fuel carpeta_id total i rutas = Some (evs, r) ->
  removals evs = []
  /\ exists said, statuses evs = start_messages total i said
                  /\ exists rest, rutas = said ++ rest
                                  /\ (r = Ok tt -> rest = []).
Proof.
  revert i evs r. induction rutas as [|ruta rutas IH]; intros i evs r H.
  - injection H as <- <-. split; [reflexivity |].
    exists []. split; [reflexivity |]. now exists [].
  - cbn [upload_each] in H. unfold bind in H.
    destruct (upload_one w fuel carpeta_id total i ruta) as [[evs1 [[] | e]]|]
      eqn:Hone; [| | discriminate].
    + destruct (upload_each w fuel carpeta_id total (S i) rutas)
        as [[evs2 r2]|] eqn:Hrest; [| discriminate].
      injection H as <- <-.
      destruct (upload_one_events _ _ _ _ _ _ _ Hone) as (Hs & Hr).
      destruct (IH _ _ _ Hrest) as (Hr2 & said & Hsaid & rest & Hrutas & Hok).
      rewrite removals_app, statuses_app, Hs, Hr, Hr2, Hsaid.
      split; [reflexivity |].
      exists (ruta :: said). split; [reflexivity |].
      exists rest. split; [now rewrite Hrutas | exact Hok].
    + injection H as <- <-.
      destruct (upload_one_events _ _ _ _ _ _ _ Hone) as (Hs & Hr).
      split; [exact Hr |].
      exists [ruta]. split; [exact Hs |].
      exists rutas. split; [reflexivity | discriminate].
Qed.

(** The files before the failing one go through, the failing one raises:
    the loop is left there, and the files after it are not started. *)
Lemma upload_each_fails (fuel : nat) (carpeta_id : string) (total : nat)
    (before : list string) (ruta : string) (after : list string) (i : nat)
    (evs : list event) (e : exn) :
  all_uploaded w fuel carpeta_id total i before = true ->
  upload_one w fuel carpeta_id total (i + List.length before) ruta
    = Some (evs, Raise e) ->
  exists tr,
    upload_each w fuel carpeta_id total i (before ++ ruta :: after)
      = Some (tr, Raise e)
    /\ statuses tr = start_messages total i (before ++ [ruta])
    /\ removals tr = [].
Proof.
  revert i. induction before as [|b before IH]; intros i Hall Hone.
  - cbn [List.length] in Hone. rewrite Nat.add_0_r in Hone.
    cbn [app upload_each]. unfold bind. rewrite Hone.
    exists evs. split; [reflexivity |].
    destruct (upload_one_events _ _ _ _ _ _ _ Hone) as (Hs & Hr). auto.
  - cbn [all_uploaded] in Hall. apply andb_true_iff in Hall as [Hb Hall].
    cbn [List.length] in Hone. rewrite Nat.add_succ_r in Hone.
    destruct (IH (S i) Hall Hone) as (tr & Heach & Hs & Hr).
    cbn [app upload_each]. unfold bind. rewrite Heach.
    destruct (upload_one w fuel carpeta_id total i b) as [[evs1 [[] | e1]]|]
      eqn:Hone1; try discriminate.
    destruct (upload_one_events _ _ _ _ _ _ _ Hone1) as (Hs1 & Hr1).
    exists (evs1 ++ tr). split; [reflexivity |].
    rewrite statuses_app, removals_app, Hs, Hr, Hs1, Hr1. auto.
Qed.

(** The cleanup tries every path once, in order, and never raises. *)
Lemma cleanup_events (rutas : list string) :
  for_each (remove_quietly w) rutas = Some (map ERemove rutas, Ok tt).
Proof.
  induction rutas as [|ruta rutas IH]; [reflexivity |].
  cbn [for_each]. unfold bind at 1. rewrite IH.
  unfold remove_quietly, bind, emit, ret.
  destruct (os_remove w ruta); reflexivity.
Qed.

(** [upload_files], by the way its [try] block is left. *)
Lemma upload_files_turn (fuel : nat) (cuenta : string) (rutas : list string) :
  upload_files w fuel cuenta rutas =
  match upload_body w fuel cuenta rutas with
  | None => None
  | Some (evs, Ok a) => Some (evs ++ map ERemove rutas, Ok a)
  | Some (evs, Raise e) =>
      if is_exception e
      then Some ((evs ++ [EStatus (error_status e)]) ++ map ERemove rutas, Ok tt)
      else Some (evs ++ map ERemove rutas, Raise e)
  end.
Proof.
  unfold upload_files, try_finally, try_except. rewrite cleanup_events.
  destruct (upload_body w fuel cuenta rutas) as [[evs [a | e]]|];
    [reflexivity | | reflexivity].
  destruct (is_exception e); reflexivity.
Qed.

(** [get_service] and the folder lookup emit nothing. *)
Lemma get_service_silent (cuenta : string) :
  exists r, get_service w cuenta = Some ([], r).
Proof.
  unfold get_service, raise, ret.
  destruct (dict_get cuenta (CUENTAS w)) as [account|]; [| eauto].
  destruct (dict_get "credenciales" account) as [token_file|]; [| eauto].
  destruct (credentials w token_file); eauto.
Qed.

Lemma carpeta_of_silent (cuenta : string) :
  exists r, carpeta_of w cuenta = Some ([], r).
Proof.
  unfold carpeta_of, raise, ret.
  destruct (dict_get cuenta (CUENTAS w)) as [account|]; [| eauto].
  destruct (dict_get "carpeta" account); eauto.
Qed.

(** The [try] block, by the way it is left: before the first file, in the
    middle of the files, or after the last of them. *)
Lemma upload_body_cases (fuel : nat) (cuenta : string) (rutas : list string)
    (evs : list event) (r : res unit) :
  upload_body w fuel cuenta rutas = Some (evs, r) ->
  (evs = [] /\ exists e, r = Raise e)
  \/ (exists carpeta_id,
        get_service w cuenta = ret tt
        /\ carpeta_of w cuenta = ret carpeta_id
        /\ ((exists e, r = Raise e
                       /\ upload_each w fuel carpeta_id (List.length rutas) 1 rutas
                          = Some (evs, Raise e))
            \/ (exists files,
                   r = Ok tt
                   /\ upload_each w fuel carpeta_id (List.length rutas) 1 rutas
                      = Some (files, Ok tt)
                   /\ evs = files ++ [EProgress 100; EStatus "✅ Subida completada"]))).
Proof.
  unfold upload_body, bind, emit, ret.
  destruct (get_service_silent cuenta) as [[[] | e] ->].
  2:{ intros H. injection H as <- <-. left. eauto. }
  destruct (carpeta_of_silent cuenta) as [[carpeta_id | e] ->].
  2:{ intros H. injection H as <- <-. left. eauto. }
  destruct (upload_each w fuel carpeta_id (List.length rutas) 1 rutas)
    as [[files [[] | e]]|] eqn:Heach; [| | discriminate].
  - intros H. injection H as <- <-. right. exists carpeta_id.
    split; [reflexivity |]. split; [reflexivity |]. right.
    exists files. auto.
  - intros H. injection H as <- <-. right. exists carpeta_id.
    split; [reflexivity |]. split; [reflexivity |]. left. eauto.
Qed.

(** Nothing is removed inside the [try] block. *)
Lemma upload_body_removes_nothing (fuel : nat) (cuenta : string)
    (rutas : list string) (evs : list event) (r : res unit) :
  upload_body w fuel cuenta rutas = Some (evs, r) -> removals evs = [].
Proof.
  intros H. destruct (upload_body_cases _ _ _ _ _ H)
    as [[-> _] | (carpeta_id & _ & _ & [(e & _ & Heach) | (files & _ & Heach & ->)])].
  - reflexivity.
  - now destruct (upload_each_events _ _ _ _ _ _ _ Heach).
  - destruct (upload_each_events _ _ _ _ _ _ _ Heach) as [Hr _].
    now rewrite removals_app, Hr.
Qed.

(** When every request of the batch lets the inner loop end within the
    fuel, so does the [try] block. *)
Lemma upload_each_ends (fuel : nat) (carpeta_id : string) (total : nat)
    (rutas : list string) (i : nat) :
  (forall ruta request,
      In ruta rutas ->
      create_request w ruta (PyStr.basename ruta) carpeta_id = inr request ->
      ends (transfer_loop w fuel request) = true) ->
  ends (upload_each w fuel carpeta_id total i rutas) = true.
Proof.
  revert i. induction rutas as [|ruta rutas IH]; intros i Hall; [reflexivity |].
  cbn [upload_each]. unfold bind. rewrite upload_one_turn.
  assert (Hrest : ends (upload_each w fuel carpeta_id total (S i) rutas) = true)
    by (apply IH; intros; eapply Hall; [right |]; eassumption).
  destruct (create_request w ruta (PyStr.basename ruta) carpeta_id)
    as [e | request] eqn:Hreq; [reflexivity |].
  specialize (Hall ruta request (or_introl eq_refl) Hreq).
  destruct (transfer_loop w fuel request) as [[evs [[] | e]]|];
    [| reflexivity | discriminate].
  destruct (upload_each w fuel carpeta_id total (S i) rutas) as [[evs' r']|];
    [reflexivity | discriminate].
Qed.

Lemma upload_body_ends (fuel : nat) (cuenta : string) (rutas : list string) :
  (forall ruta carpeta_id request,
      In ruta rutas ->
      create_request w ruta (PyStr.basename ruta) carpeta_id = inr request ->
      ends (transfer_loop w fuel request) = true) ->
  ends (upload_body w fuel cuenta rutas) = true.
Proof.
  intros Hall. unfold upload_body, bind, emit, ret.
  destruct (get_service_silent cuenta) as [[[] | e] ->]; [| reflexivity].
  destruct (carpeta_of_silent cuenta) as [[carpeta_id | e] ->]; [| reflexivity].
  pose proof (upload_each_ends fuel carpeta_id (List.length rutas) rutas 1
                (fun ruta request => Hall ruta carpeta_id request)) as Hends.
  destruct (upload_each w fuel carpeta_id (List.length rutas) 1 rutas)
    as [[files [[] | e]]|]; [reflexivity | reflexivity | discriminate].
Qed.

End Coordinator.

(** C5.  In a batch whose destination resolves, when the files before
    [ruta] are transferred and the transfer of [ruta] raises an exception,
    [upload_files] returns normally and the status callback has received, in
    order, the upload-start message of each file up to [ruta], none for the
    files after it, and then one failure status that gives the class and the
    message of the exception. *)
Theorem fail_fast (w : World) (fuel : nat) (cuenta carpeta_id : string)
    (before : list string) (ruta : string) (after : list string)
    (evs : list event) (e : exn) :
  let rutas := before ++ ruta :: after in
  let total := List.length rutas in
  get_service w cuenta = ret tt ->
  carpeta_of w cuenta = ret carpeta_id ->
  all_uploaded w fuel carpeta_id total 1 before = true ->
  upload_one w fuel carpeta_id total (1 + List.length before) ruta
    = Some (evs, Raise e) ->
  is_exception e = true ->
  exists tr,
    upload_files w fuel cuenta rutas = Some (tr ++ map ERemove rutas, Ok tt)
    /\ statuses tr
       = start_messages total 1 (before ++ [ruta]) ++ [error_status e]
    /\ removals tr = [].
Proof.
  cbv zeta. intros Hservice Hcarpeta Hbefore Hone Hexc.
  destruct (upload_each_fails w fuel carpeta_id _ before ruta after 1 evs e
              Hbefore Hone) as (tr & Heach & Hs & Hr).
  exists (tr ++ [EStatus (error_status e)]).
  rewrite upload_files_turn. unfold upload_body, bind.
  rewrite Hservice, Hcarpeta. cbn [ret]. rewrite Heach. cbn [app].
  rewrite Hexc. split; [reflexivity |].
  rewrite statuses_app, removals_app, Hs, Hr. auto.
Qed.

(** Three files, the second refused with a 404 after one retry: the status
    callback hears of files 1 and 2 and of the failure, not of file 3. *)
Lemma fail_fast_witness :
  exists tr,
    upload_files Scripted.tres 4 "penal" Scripted.tres_archivos
      = Some (tr ++ map ERemove Scripted.tres_archivos, Ok tt)
    /\ statuses tr
       = [ "Subiendo (1/3): a.pdf"; "Subiendo (2/3): b.pdf";
           "❌ Error: HttpError: <HttpError 404 when requesting None returned Not Found>" ]
    /\ removals tr = [].
Proof.
  exact (fail_fast Scripted.tres 4 "penal" "folder-1"
           ["temp_uploads/a.pdf"] "temp_uploads/b.pdf" ["temp_uploads/c.pdf"]
           (events_of (upload_one Scripted.tres 4 "folder-1" 3 2 "temp_uploads/b.pdf"))
           Scripted.not_found eq_refl eq_refl eq_refl eq_refl eq_refl).
Defined.



(** C7, as amended.  When the [try] block ends normally, every file has
    been transferred, and the progress callback receives 100 once, from the
    coordinator, after the events of the last file and before the success
    status; the cleanup follows. *)
Theorem hundred_after_last_file (w : World) (fuel : nat) (cuenta : string)
    (rutas : list string) (evs : list event) :
  upload_body w fuel cuenta rutas = Some (evs, Ok tt) ->
  exists carpeta_id files,
    upload_each w fuel carpeta_id (List.length rutas) 1 rutas = Some (files, Ok tt)
    /\ statuses files = start_messages (List.length rutas) 1 rutas
    /\ evs = files ++ [EProgress 100; EStatus "✅ Subida completada"]
    /\ upload_files w fuel cuenta rutas = Some (evs ++ map ERemove rutas, Ok tt).
Proof.
  intros Hbody.
  destruct (upload_body_cases w _ _ _ _ _ Hbody)
    as [[_ [e He]] | (carpeta_id & _ & _ & [(e & He & _) | (files & _ & Heach & ->)])];
    try discriminate.
  exists carpeta_id, files. split; [exact Heach |].
  destruct (upload_each_events w _ _ _ _ _ _ _ Heach)
    as (_ & said & Hsaid & rest & Hrutas & Hrest).
  rewrite (Hrest eq_refl), app_nil_r in Hrutas. subst said.
  split; [exact Hsaid |]. split; [reflexivity |].
  rewrite upload_files_turn, Hbody. reflexivity.
Qed.

(** Two files that go through: 100 comes once, after the second. *)
Lemma hundred_after_last_file_witness :
  exists carpeta_id files,
    upload_each Scripted.tres 4 carpeta_id 2 1 Scripted.dos_archivos
      = Some (files, Ok tt)
    /\ statuses files = start_messages 2 1 Scripted.dos_archivos
    /\ events_of (upload_body Scripted.tres 4 "penal" Scripted.dos_archivos)
       = files ++ [EProgress 100; EStatus "✅ Subida completada"]
    /\ upload_files Scripted.tres 4 "penal" Scripted.dos_archivos
       = Some (events_of (upload_body Scripted.tres 4 "penal" Scripted.dos_archivos)
                 ++ map ERemove Scripted.dos_archivos, Ok tt).
Proof.
  exact (hundred_after_last_file Scripted.tres 4 "penal" Scripted.dos_archivos
           (events_of (upload_body Scripted.tres 4 "penal" Scripted.dos_archivos))
           eq_refl).
Defined.

(** C7 as the specification words it fails on the first of two files: its
    remote session reports the transfer done, and the coordinator starts the
    second file after the progress values 0 and 50 only; the one 100 of the
    batch comes after the second file. *)
Lemma no_hundred_between_files :
  upload_files Scripted.tres 4 "penal" Scripted.dos_archivos
  = Some ([ EStatus "Subiendo (1/2): a.pdf"; EProgress 0;
            ENextChunk; EProgress 50; ENextChunk;
            EStatus "Subiendo (2/2): c.pdf"; EProgress 0;
            ENextChunk;
            EProgress 100; EStatus "✅ Subida completada";
            ERemove "temp_uploads/a.pdf"; ERemove "temp_uploads/c.pdf" ],
          Ok tt)
  /\ upload_one Scripted.tres 4 "folder-1" 2 1 "temp_uploads/a.pdf"
     = Some ([ EStatus "Subiendo (1/2): a.pdf"; EProgress 0;
               ENextChunk; EProgress 50; ENextChunk ], Ok tt).
Proof. split; reflexivity. Qed.

(** ** Percentages *)

Section Percent.

Local Open Scope Q_scope.

Lemma pow2_pos (k : Z) : 0 < 2 ^ k.
Proof. apply Qpower_0_lt. reflexivity. Qed.

Lemma pow2_add (a b : Z) : 2 ^ (a + b) == 2 ^ a * 2 ^ b.
Proof. apply Qpower_plus. discriminate. Qed.

Lemma pow2_le (a b : Z) : (a <= b)%Z -> 2 ^ a <= 2 ^ b.
Proof. intros H. apply Qpower_le_compat_l; [exact H | discriminate]. Qed.

Lemma pow2_lt_inv (a b : Z) : 2 ^ a < 2 ^ b -> (a < b)%Z.
Proof. intros H. apply (Qpower_lt_compat_l_inv 2); [exact H | reflexivity]. Qed.

Lemma pow2_inject (a : Z) : (0 <= a)%Z -> inject_Z (2 ^ a) == 2 ^ a.
Proof. intros H. now rewrite Zpower_Qpower. Qed.

(** [ilog2] is the floor of the logarithm. *)
Lemma ilog2_spec (q : Q) :
  0 < q -> 2 ^ Double.ilog2 q <= q /\ q < 2 ^ (Double.ilog2 q + 1).
Proof.
  intros Hq. destruct q as [n d]. unfold Double.ilog2. cbn [Qnum Qden].
  assert (Hn : (0 < n)%Z) by (unfold Qlt in Hq; cbn in Hq; lia).
  set (a := Z.log2 n). set (b := Z.log2 (Zpos d)).
  destruct (Z.log2_spec n Hn) as [Ha1 Ha2]. fold a in Ha1, Ha2.
  destruct (Z.log2_spec (Zpos d) (Pos2Z.is_pos d)) as [Hb1 Hb2].
  fold b in Hb1, Hb2.
  assert (Ha0 : (0 <= a)%Z) by apply Z.log2_nonneg.
  assert (Hb0 : (0 <= b)%Z) by apply Z.log2_nonneg.
  assert (Hq' : n # d == inject_Z n / inject_Z (Zpos d)) by apply Qmake_Qdiv.
  assert (Hd : 0 < inject_Z (Zpos d)) by reflexivity.
  (* the bounds of n and d, in Q *)
  assert (HA1 : 2 ^ a <= inject_Z n)
    by (rewrite <- pow2_inject by exact Ha0; now rewrite <- Zle_Qle).
  assert (HA2 : inject_Z n < 2 ^ (a + 1))
    by (rewrite <- pow2_inject by lia; now rewrite <- Zlt_Qlt).
  assert (HB1 : 2 ^ b <= inject_Z (Zpos d))
    by (rewrite <- pow2_inject by exact Hb0; now rewrite <- Zle_Qle).
  assert (HB2 : inject_Z (Zpos d) < 2 ^ (b + 1))
    by (rewrite <- pow2_inject by lia; now rewrite <- Zlt_Qlt).
  pose proof (pow2_pos a) as Pa. pose proof (pow2_pos b) as Pb.
  pose proof (pow2_pos (a - b)) as Pk. pose proof (pow2_pos (a - b - 1)) as Pk1.
  (* q lies strictly between 2^(k-1) and 2^(k+1) *)
  assert (Hlow : 2 ^ (a - b - 1) < n # d).
  { rewrite Hq'. apply Qlt_shift_div_l; [exact Hd |].
    apply Qlt_le_trans with (2 ^ (a - b - 1) * 2 ^ (b + 1)).
    - apply Qmult_lt_l; assumption.
    - rewrite <- pow2_add. replace (a - b - 1 + (b + 1))%Z with a by ring.
      exact HA1. }
  assert (Hup : n # d < 2 ^ (a - b + 1)).
  { rewrite Hq'. apply Qlt_shift_div_r; [exact Hd |].
    apply Qlt_le_trans with (2 ^ (a + 1)); [exact HA2 |].
    replace (a + 1)%Z with (a - b + 1 + b)%Z by ring. rewrite pow2_add.
    apply Qmult_le_l; [apply pow2_pos | exact HB1]. }
  destruct (Qle_bool (2 ^ (a - b)) (n # d)) eqn:Htest.
  - apply Qle_bool_iff in Htest. split; assumption.
  - assert (Hlt : n # d < 2 ^ (a - b)).
    { apply Qnot_le_lt. intros H. apply Qle_bool_iff in H. congruence. }
    replace (a - b - 1 + 1)%Z with (a - b)%Z by ring.
    split; [now apply Qlt_le_weak | exact Hlt].
Qed.

Lemma ilog2_monotone (p q : Q) :
  0 < p -> p <= q -> (Double.ilog2 p <= Double.ilog2 q)%Z.
Proof.
  intros Hp Hpq.
  destruct (ilog2_spec p Hp) as [Hp1 _].
  destruct (ilog2_spec q (Qlt_le_trans _ _ _ Hp Hpq)) as [_ Hq2].
  assert (H : 2 ^ Double.ilog2 p < 2 ^ (Double.ilog2 q + 1)).
  { eapply Qle_lt_trans; [exact Hp1 |]. eapply Qle_lt_trans; eassumption. }
  apply pow2_lt_inv in H. lia.
Qed.

(** [rne] lies between the floor and its successor, fixes the integers and
    does not go back. *)
Lemma rne_floor (q : Q) : (Qfloor q <= Double.rne q <= Qfloor q + 1)%Z.
Proof.
  unfold Double.rne. cbv zeta.
  destruct (Qcompare (q - inject_Z (Qfloor q)) (1 # 2));
    try destruct (Z.even (Qfloor q)); lia.
Qed.

Lemma rne_inject (z : Z) : Double.rne (inject_Z z) = z.
Proof.
  unfold Double.rne. cbv zeta. rewrite Qfloor_Z.
  assert (H : Qcompare (inject_Z z - inject_Z z) (1 # 2) = Lt).
  { apply Qlt_alt. setoid_replace (inject_Z z - inject_Z z) with 0 by ring.
    reflexivity. }
  now rewrite H.
Qed.

Lemma rne_monotone (p q : Q) : p <= q -> (Double.rne p <= Double.rne q)%Z.
Proof.
  intros Hpq. pose proof (Qfloor_resp_le p q Hpq) as Hfloor.
  pose proof (rne_floor p) as Hp. pose proof (rne_floor q) as Hq.
  destruct (Z.eq_dec (Qfloor p) (Qfloor q)) as [Heq | Hne]; [| lia].
  unfold Double.rne in *. cbv zeta in *. rewrite <- Heq in *.
  destruct (Qcompare_spec (p - inject_Z (Qfloor p)) (1 # 2)) as [Hp' | Hp' | Hp'];
    destruct (Qcompare_spec (q - inject_Z (Qfloor p)) (1 # 2)) as [Hq' | Hq' | Hq'];
    try destruct (Z.even (Qfloor p)); try lia;
    exfalso; lra.
Qed.

Lemma rne_le_inject (q : Q) (z : Z) : q <= inject_Z z -> (Double.rne q <= z)%Z.
Proof. intros H. rewrite <- (rne_inject z). now apply rne_monotone. Qed.

Lemma rne_ge_inject (q : Q) (z : Z) : inject_Z z <= q -> (z <= Double.rne q)%Z.
Proof. intros H. rewrite <- (rne_inject z). now apply rne_monotone. Qed.


Lemma ulp_exponent_monotone (p q : Q) :
  0 < p -> p <= q -> (Double.ulp_exponent p <= Double.ulp_exponent q)%Z.
Proof.
  intros Hp Hpq. unfold Double.ulp_exponent.
  pose proof (ilog2_monotone p q Hp Hpq). lia.
Qed.

Lemma nearest_pos (q : Q) :
  0 < q ->
  Double.nearest q =
  inject_Z (Double.rne (q / 2 ^ Double.ulp_exponent q)) * 2 ^ Double.ulp_exponent q.
Proof.
  intros Hq. unfold Double.nearest.
  destruct (Qle_bool q 0) eqn:H; [| reflexivity].
  apply Qle_bool_iff in H. exfalso. lra.
Qed.

Lemma nearest_nonpos (q : Q) : q <= 0 -> Double.nearest q = 0.
Proof.
  intros Hq. unfold Double.nearest.
  destruct (Qle_bool q 0) eqn:H; [reflexivity |].
  apply Qle_bool_iff in Hq. congruence.
Qed.

Lemma scaled_le (p q : Q) (e : Z) : p <= q -> p / 2 ^ e <= q / 2 ^ e.
Proof.
  intros H. unfold Qdiv. apply Qmult_le_compat_r; [exact H |].
  apply Qinv_le_0_compat, Qlt_le_weak, pow2_pos.
Qed.

Lemma nearest_nonneg (q : Q) : 0 <= Double.nearest q.
Proof.
  destruct (Qlt_le_dec 0 q) as [Hq | Hq].
  - rewrite (nearest_pos q Hq). apply Qmult_le_0_compat.
    + change 0 with (inject_Z 0). rewrite <- Zle_Qle. apply rne_ge_inject.
      apply Qle_shift_div_l; [apply pow2_pos |].
      rewrite Qmult_0_l. now apply Qlt_le_weak.
    + apply Qlt_le_weak, pow2_pos.
  - rewrite (nearest_nonpos q Hq). apply Qle_refl.
Qed.

(** Rounding to the nearest double does not go back. *)
Lemma nearest_monotone (p q : Q) : p <= q -> Double.nearest p <= Double.nearest q.
Proof.
  intros Hpq. destruct (Qlt_le_dec 0 p) as [Hp | Hp].
  - assert (Hq : 0 < q) by (eapply Qlt_le_trans; eassumption).
    rewrite (nearest_pos p Hp), (nearest_pos q Hq).
    pose proof (ulp_exponent_monotone p q Hp Hpq) as He.
    destruct (Z.eq_dec (Double.ulp_exponent p) (Double.ulp_exponent q)) as [Heq | Hne].
    + rewrite Heq. apply Qmult_le_compat_r; [| apply Qlt_le_weak, pow2_pos].
      rewrite <- Zle_Qle. apply rne_monotone. now apply scaled_le.
    + set (ep := Double.ulp_exponent p) in *. set (eq := Double.ulp_exponent q) in *.
      destruct (ilog2_spec p Hp) as [_ Hp2]. destruct (ilog2_spec q Hq) as [Hq1 _].
      assert (Hep : (Double.ilog2 p <= ep + 52)%Z)
        by (subst ep; unfold Double.ulp_exponent; lia).
      assert (Heq : (eq = Double.ilog2 q - 52)%Z)
        by (subst ep eq; unfold Double.ulp_exponent in *; lia).
      apply Qle_trans with (2 ^ Double.ilog2 q).
      * apply Qle_trans with (inject_Z (2 ^ 53) * 2 ^ ep).
        -- apply Qmult_le_compat_r; [| apply Qlt_le_weak, pow2_pos].
           rewrite <- Zle_Qle. apply rne_le_inject.
           apply Qle_shift_div_r; [apply pow2_pos |].
           rewrite pow2_inject by lia. rewrite <- pow2_add.
           apply Qlt_le_weak. eapply Qlt_le_trans; [exact Hp2 |].
           apply pow2_le. lia.
        -- rewrite pow2_inject by lia. rewrite <- pow2_add. apply pow2_le. lia.
      * apply Qle_trans with (inject_Z (2 ^ 52) * 2 ^ eq).
        -- rewrite pow2_inject by lia. rewrite <- pow2_add.
           apply pow2_le. lia.
        -- apply Qmult_le_compat_r; [| apply Qlt_le_weak, pow2_pos].
           rewrite <- Zle_Qle. apply rne_ge_inject.
           apply Qle_shift_div_l; [apply pow2_pos |].
           rewrite pow2_inject by lia. rewrite <- pow2_add.
           eapply Qle_trans; [| exact Hq1]. apply pow2_le. lia.
  - rewrite (nearest_nonpos p Hp). apply nearest_nonneg.
Qed.

Lemma nearest_one : Double.nearest 1 == 1.
Proof. reflexivity. Qed.

Lemma nearest_hundred : Double.nearest 100 == 100.
Proof. reflexivity. Qed.

Lemma round_unit (q : Q) : 0 <= q -> q <= 100 -> Double.round q = Some (Double.nearest q).
Proof.
  intros H0 H1. unfold Double.round.
  assert (Hle : Qle_bool 0 q = true) by now apply Qle_bool_iff.
  rewrite Hle.
  destruct (Qle_bool (2 ^ 1024) (Qabs (Double.nearest q))) eqn:Hover; [| reflexivity].
  exfalso. apply Qle_bool_iff in Hover.
  rewrite Qabs_pos in Hover by apply nearest_nonneg.
  pose proof (nearest_monotone q 100 H1) as Hn. rewrite nearest_hundred in Hn.
  assert (Hbig : 100 < 2 ^ 1024) by reflexivity. lra.
Qed.

(** On a float that is not negative, truncation is the floor. *)
Lemma int_of_float_floor (x : Q) : 0 <= x -> int_of_float x = Qfloor x.
Proof.
  destruct x as [n d]. unfold Qle, int_of_float, Qfloor. cbn. intros Hn.
  apply Z.quot_div_nonneg; lia.
Qed.

Lemma nearest_unit (x : Q) : 0 <= x <= 1 -> 0 <= Double.nearest x * 100 <= 100.
Proof.
  intros [H0 H1]. pose proof (nearest_nonneg x) as Hlow.
  pose proof (nearest_monotone x 1 H1) as Hup. rewrite nearest_one in Hup.
  split; lra.
Qed.

(** The percentage of a fraction of [0, 1]: no conversion overflows. *)
Lemma percent_unit (x : Q) : 0 <= x <= 1 -> percent x = inr (percent_of_unit x).
Proof.
  intros Hx. destruct (nearest_unit x Hx) as [Hlow Hup]. destruct Hx as [H0 H1].
  unfold percent, percent_of_unit.
  rewrite (round_unit x) by lra.
  rewrite (round_unit (Double.nearest x * 100)) by assumption.
  now rewrite int_of_float_floor by apply nearest_nonneg.
Qed.

Lemma percent_of_unit_monotone (x y : Q) :
  x <= y -> (percent_of_unit x <= percent_of_unit y)%Z.
Proof.
  intros Hxy. unfold percent_of_unit.
  apply Qfloor_resp_le, nearest_monotone.
  apply Qmult_le_compat_r; [now apply nearest_monotone | discriminate].
Qed.

Lemma percent_of_unit_range (x : Q) :
  0 <= x <= 1 -> (0 <= percent_of_unit x <= 100)%Z.
Proof.
  intros Hx. destruct (nearest_unit x Hx) as [Hlow Hup]. unfold percent_of_unit.
  split.
  - change 0%Z with (Qfloor 0). apply Qfloor_resp_le, nearest_nonneg.
  - change 100%Z with (Qfloor 100). apply Qfloor_resp_le.
    pose proof (nearest_monotone _ _ Hup) as Hn.
    rewrite nearest_hundred in Hn. exact Hn.
Qed.

(** The fractions of [0, 1] all have a percentage. *)
Lemma percents_unit (l : list Q) :
  Forall (fun x => 0 <= x <= 1) l ->
  percents l = map percent_of_unit l /\ map percent l = map inr (percents l).
Proof.
  induction 1 as [|x l Hx _ [IH1 IH2]]; [split; reflexivity |].
  cbn [percents map]. rewrite (percent_unit x Hx), IH1, IH2, IH1.
  split; reflexivity.
Qed.

(** The percentages of fractions that never go back never go back. *)
Lemma percent_sorted (l : list Q) :
  Sorted Qle l -> Sorted Z.le (map percent_of_unit l).
Proof.
  intros Hsorted. induction Hsorted as [|x l Hl IH Hhd]; [constructor |].
  cbn [map]. constructor; [exact IH |].
  destruct Hhd as [|y l Hxy]; constructor.
  now apply percent_of_unit_monotone.
Qed.

End Percent.

(** The conversion is that of binary64 arithmetic: the product is rounded
    before it is truncated. *)
Lemma percent_rounds :
  percent 0.29 = inr 28%Z /\ percent 0.15 = inr 15%Z /\ percent 0.57 = inr 56%Z
  /\ percent 0.5 = inr 50%Z /\ percent 1 = inr 100%Z
  /\ percent (inject_Z (2 ^ 1024)) = inl OverflowError.
Proof. repeat split; vm_compute; reflexivity. Qed.

(** On every session that has sent [sent] bytes of [size], [size] at most
    64, the percentage is the one the kernel's binary64 division and
    product give. *)
Lemma percent_is_binary64 :
  forallb (fun size => forallb (fun sent => percent_agrees sent size)
                               (seq 0 (S size)))
          (seq 1 64) = true.
Proof. vm_compute. reflexivity. Qed.

(** C9, as amended.  The progress values of one file's session are 0 and
    then the percentage of each fraction the remote session reports, as it
    reports them, the percentage being that of binary64 arithmetic; so when
    those fractions lie in [0, 1] and never go back, every one of them has
    a percentage, and the values never go back and lie in [0, 100]. *)
Theorem percent_sequence (w : World) (fuel : nat) (carpeta_id : string)
    (total i : nat) (ruta : string) (request : session w)
    (evs : list event) (r : res unit) :
  create_request w ruta (PyStr.basename ruta) carpeta_id = inr request ->
  upload_one w fuel carpeta_id total i ruta = Some (evs, r) ->
  Forall (fun x => 0 <= x <= 1)%Q (reported_fractions w fuel request) ->
  Sorted Qle (reported_fractions w fuel request) ->
  progresses evs = 0%Z :: percents (reported_fractions w fuel request)
  /\ map percent (reported_fractions w fuel request)
     = map inr (percents (reported_fractions w fuel request))
  /\ Sorted Z.le (progresses evs)
  /\ Forall (fun v => 0 <= v <= 100)%Z (progresses evs).
Proof.
  intros Hreq Hone Hrange Hsorted.
  rewrite upload_one_turn, Hreq in Hone.
  destruct (transfer_loop w fuel request) as [[evs' r']|] eqn:Hloop;
    [| discriminate].
  injection Hone as <- <-.
  destruct (transfer_loop_events w _ _ _ _ Hloop) as (_ & _ & Hp).
  cbn [progresses]. rewrite Hp.
  destruct (percents_unit _ Hrange) as [Hvalues Hall].
  assert (Hpercents : Forall (fun v => 0 <= v <= 100)%Z
                        (percents (reported_fractions w fuel request))).
  { rewrite Hvalues. apply Forall_map. eapply Forall_impl; [| exact Hrange].
    intros x Hx. now apply percent_of_unit_range. }
  split; [reflexivity |]. split; [exact Hall |]. split.
  - constructor; [rewrite Hvalues; now apply percent_sorted |].
    destruct (percents (reported_fractions w fuel request)) as [|v l];
      constructor.
    inversion Hpercents as [|? ? [Hv _] _]. exact Hv.
  - constructor; [lia | exact Hpercents].
Qed.

(** A remote that reports a quarter, a half and the whole: the callback
    receives 0, 25, 50 and 100. *)
Lemma percent_sequence_witness :
  reported_fractions Scripted.avanza 4
    [Returned (Some 0.25%Q) false; Returned (Some 0.5%Q) false;
     Returned (Some 1%Q) true]
  = [0.25%Q; 0.5%Q; 1%Q]
  /\ progresses
       (events_of (upload_one Scripted.avanza 4 "folder-1" 1 1 "temp_uploads/v.bin"))
     = [0; 25; 50; 100]%Z
  /\ map percent [0.25%Q; 0.5%Q; 1%Q] = [inr 25; inr 50; inr 100]%Z
  /\ Sorted Z.le
       (progresses
          (events_of (upload_one Scripted.avanza 4 "folder-1" 1 1 "temp_uploads/v.bin")))
  /\ Forall (fun v => 0 <= v <= 100)%Z
       (progresses
          (events_of (upload_one Scripted.avanza 4 "folder-1" 1 1 "temp_uploads/v.bin"))).
Proof.
  split; [reflexivity |].
  refine (percent_sequence Scripted.avanza 4 "folder-1" 1 1 "temp_uploads/v.bin"
            [Returned (Some 0.25%Q) false; Returned (Some 0.5%Q) false;
             Returned (Some 1%Q) true]
            (events_of (upload_one Scripted.avanza 4 "folder-1" 1 1 "temp_uploads/v.bin"))
            (Ok tt) eq_refl eq_refl _ _).
  - change (Forall (fun x => 0 <= x <= 1)%Q [0.25%Q; 0.5%Q; 1%Q]).
    repeat constructor; discriminate.
  - change (Sorted Qle [0.25%Q; 0.5%Q; 1%Q]).
    repeat constructor; discriminate.
Defined.

(** C9 as the specification words it fails when the remote reports a
    fraction that goes back: with the fractions 0.5 and then 0.25, both in
    [0, 1], the callback receives 0, 50 and then 25. *)
Lemma progress_goes_back :
  reported_fractions Scripted.retrocede 4
    [Returned (Some 0.5%Q) false; Returned (Some 0.25%Q) false; Returned None true]
  = [0.5%Q; 0.25%Q]
  /\ upload_one Scripted.retrocede 4 "folder-1" 1 1 "temp_uploads/r.bin"
     = Some ([ EStatus "Subiendo (1/1): r.bin"; EProgress 0;
               ENextChunk; EProgress 50; ENextChunk; EProgress 25; ENextChunk ],
             Ok tt)
  /\ ~ Sorted Z.le [0; 50; 25]%Z.
Proof.
  split; [reflexivity |]. split; [reflexivity |].
  intros Hsorted.
  inversion Hsorted as [|? ? Htail _]; subst.
  inversion Htail as [|? ? _ Hhd]; subst.
  inversion Hhd as [|? ? Hle]; subst. now apply Hle.
Qed.

(** ** The intake *)




(** * More of the engine *)

(** ** More on the classifier *)

Section ClassifierFacts.

Lemma lower_char_idempotent (c : ascii) :
  PyStr.lower_char (PyStr.lower_char c) = PyStr.lower_char c.
Proof. destruct c as [[] [] [] [] [] [] [] []]; reflexivity. Qed.

Lemma lower_idempotent (s : string) : PyStr.lower (PyStr.lower s) = PyStr.lower s.
Proof.
  induction s as [|c s IH]; simpl; [reflexivity |].
  now rewrite lower_char_idempotent, IH.
Qed.

Lemma lower_length (s : string) : String.length (PyStr.lower s) = String.length s.
Proof. induction s as [|c s IH]; simpl; [reflexivity | now rewrite IH]. Qed.

Lemma append_length (a b : string) :
  String.length (a +++ b) = String.length a + String.length b.
Proof. induction a as [|c a IH]; simpl; [reflexivity | now rewrite IH]. Qed.

Lemma Infix_length (sub s : string) :
  PyStr.Infix sub s -> String.length sub <= String.length s.
Proof. intros [pre [post ->]]. rewrite !append_length. lia. Qed.

Lemma Infix_in_context (sub s pre post : string) :
  PyStr.Infix sub s -> PyStr.Infix sub (pre +++ s +++ post).
Proof.
  intros [a [b ->]]. exists (pre +++ a), (b +++ post).
  now rewrite !append_assoc.
Qed.

End ClassifierFacts.

(** The verdict of the classifier is that of the lower-cased message, and
    the class and the name of the exception play no part in it. *)
Theorem is_transient_ignores_case_and_class (b b' : exn_base)
    (name name' text : string) :
  is_transient (mk_exn b name text)
  = is_transient (mk_exn b' name' (PyStr.lower text)).
Proof.
  unfold is_transient. cbn [exn_text]. now rewrite lower_idempotent.
Qed.

(** A message that is transient stays so inside a longer message. *)
Theorem is_transient_in_context (b b' : exn_base) (name name' pre text post : string) :
  is_transient (mk_exn b name text) = true ->
  is_transient (mk_exn b' name' (pre +++ text +++ post)) = true.
Proof.
  intros H. apply is_transient_iff in H as [sig [Hin Hinfix]].
  apply is_transient_iff. exists sig. split; [exact Hin |].
  cbn [exn_text] in *. rewrite !lower_append. now apply Infix_in_context.
Qed.

Lemma is_transient_in_context_witness :
  is_transient (mk_exn BOSError "TimeoutError" "timed out") = true
  /\ is_transient
       (mk_exn BHttpError "HttpError" "upload failed: timed out (attempt 1)")
     = true.
Proof.
  split; [reflexivity |].
  exact (is_transient_in_context BOSError BHttpError "TimeoutError" "HttpError"
           "upload failed: " "timed out" " (attempt 1)" eq_refl).
Defined.

(** A message of fewer than three characters, the empty one among them, is
    never transient. *)
Theorem short_message_not_transient (err : exn) :
  String.length (exn_text err) < 3 -> is_transient err = false.
Proof.
  intros Hshort. destruct (is_transient err) eqn:H; [| reflexivity].
  apply is_transient_iff in H as [sig [Hin Hinfix]].
  apply Infix_length in Hinfix. rewrite lower_length in Hinfix.
  assert (Hsig : 3 <= String.length sig).
  { simpl in Hin.
    repeat (destruct Hin as [<- | Hin]; [simpl; lia |]). contradiction. }
  lia.
Qed.

Lemma short_message_not_transient_witness :
  is_transient (mk_exn BOSError "OSError" EmptyString) = false.
Proof.
  exact (short_message_not_transient (mk_exn BOSError "OSError" EmptyString)
           (Nat.lt_0_succ 2)).
Defined.

(** ** More on the retry loop *)

Section RetryFacts.

Variable w : World.
Variable max_retries : nat.
Variable base_delay : Q.

(** The loop entered at [intento] is left by its call number
    [run_intento - intento], and every call before that one failed
    transiently. *)
Lemma retry_loop_last_call (intento : nat) (s : session w) :
  let r := retry_loop w max_retries base_delay intento s in
  run_result r = call_result w (run_intento r - intento) s
  /\ run_session r = state_after w (S (run_intento r - intento)) s
  /\ fails_transiently w (run_intento r - intento) s = true.
Proof.
  cbv zeta. revert intento s.
  apply (retry_loop_turns w max_retries base_delay (fun intento s r =>
    run_result r = call_result w (run_intento r - intento) s
    /\ run_session r = state_after w (S (run_intento r - intento)) s
    /\ fails_transiently w (run_intento r - intento) s = true)).
  - intros intento s status done s' Hnext. cbn. rewrite Nat.sub_diag.
    cbn. now rewrite Hnext.
  - intros intento s e s' Hnext _. cbn. rewrite Nat.sub_diag.
    cbn. now rewrite Hnext.
  - intros intento s e s' Hnext Hty _ Htr. rewrite Nat.add_1_r.
    set (r := retry_loop w max_retries base_delay (S intento) s').
    intros (Hres & Hses & Hfail).
    destruct (retry_loop_counts w max_retries base_delay (S intento) s')
      as (Hle & _). fold r in Hle.
    cbn [run_cons run_result run_session run_intento].
    replace (run_intento r - intento) with (S (run_intento r - S intento)) by lia.
    cbn [call_result state_after fails_transiently]. rewrite Hnext. cbn [fst snd].
    rewrite Hty, Htr. auto.
Qed.

Lemma total_sleep_sleeps (evs : list event) :
  total_sleep evs = fold_right Qplus 0%Q (sleeps evs).
Proof.
  induction evs as [|ev evs IH]; [reflexivity |].
  destruct ev; cbn; now rewrite IH.
Qed.

(** The calls and the sleeps of the loop, in the order they are made. *)
Lemma retry_loop_trace (intento : nat) (s : session w) :
  let r := retry_loop w max_retries base_delay intento s in
  without_prints (run_events r)
  = calls_and_sleeps base_delay intento (run_intento r - intento).
Proof.
  cbv zeta. revert intento s.
  apply (retry_loop_turns w max_retries base_delay (fun intento _ r =>
    without_prints (run_events r)
    = calls_and_sleeps base_delay intento (run_intento r - intento))).
  - intros intento s status done s' _. cbn. now rewrite Nat.sub_diag.
  - intros intento s e s' _ _. cbn. now rewrite Nat.sub_diag.
  - intros intento s e s' _ _ _ _. rewrite Nat.add_1_r.
    set (r := retry_loop w max_retries base_delay (S intento) s').
    intros IH.
    destruct (retry_loop_counts w max_retries base_delay (S intento) s')
      as (Hle & _). fold r in Hle.
    cbn [run_cons run_intento run_events].
    replace (run_intento r - intento) with (S (run_intento r - S intento)) by lia.
    unfold calls_and_sleeps in *. cbn. now rewrite <- IH.
Qed.

(** The loop is left below the bound only by a call that did not fail
    transiently. *)
Lemma retry_loop_stops (intento : nat) (s : session w) :
  let r := retry_loop w max_retries base_delay intento s in
  run_intento r < max_retries ->
  fails_transiently w (S (run_intento r - intento)) s = false.
Proof.
  cbv zeta. revert intento s.
  apply (retry_loop_turns w max_retries base_delay (fun intento s r =>
    run_intento r < max_retries ->
    fails_transiently w (S (run_intento r - intento)) s = false)).
  - intros intento s status done s' Hnext _. cbn. rewrite Nat.sub_diag.
    cbn. now rewrite Hnext.
  - intros intento s e s' Hnext Hcond Hlt. cbn [run_intento] in Hlt |- *.
    rewrite Nat.sub_diag. cbn [fails_transiently]. rewrite Hnext.
    rewrite (proj2 (Nat.ltb_lt _ _) Hlt), andb_true_r in Hcond.
    now rewrite Hcond.
  - intros intento s e s' Hnext Hty _ Htr. rewrite Nat.add_1_r.
    set (r := retry_loop w max_retries base_delay (S intento) s').
    intros IH Hlt.
    destruct (retry_loop_counts w max_retries base_delay (S intento) s')
      as (Hle & _). fold r in Hle.
    cbn [run_cons run_intento] in *.
    replace (run_intento r - intento) with (S (run_intento r - S intento)) by lia.
    change (fails_transiently w (S (S (run_intento r - S intento))) s)
      with (match next_chunk w s with
            | (Raised e, s') =>
                is_http_or_os e && is_transient e
                && fails_transiently w (S (run_intento r - S intento)) s'
            | (Returned _ _, _) => false
            end).
    rewrite Hnext, (IH Hlt). apply andb_false_r.
Qed.

End RetryFacts.

(** C3.  One call of [next_chunk_with_retry] that leaves the loop with the
    counter at [k] has made [k + 1] calls of [next_chunk]: the first [k]
    failed transiently, and the call number [n] (from 0) was followed by a
    sleep of [sleep_s base_delay n] before the next call, the (n+1)-th
    retry; no other sleep is made, and below the bound no retry is left
    out: the last call did not fail transiently.  That delay is
    [baseDelay * 2^n * (1 + 0.12 * (n mod 3))], and the default [base_delay]
    is 1.2. *)
Theorem backoff_delays (w : World) (max_retries : nat) (base_delay : Q)
    (request : session w) :
  let r := next_chunk_with_retry w max_retries base_delay request in
  let k := run_intento r in
  without_prints (run_events r) = calls_and_sleeps base_delay 0 k
  /\ run_result r = call_result w k request
  /\ fails_transiently w k request = true
  /\ (k < max_retries -> fails_transiently w (S k) request = false)
  /\ sleeps (run_events r) = map (sleep_s base_delay) (seq 0 k)
  /\ (forall n : nat, (sleep_s base_delay n == delayFor base_delay n)%Q)
  /\ default_base_delay = 1.2%Q.
Proof.
  cbv zeta. unfold next_chunk_with_retry.
  pose proof (retry_loop_trace w max_retries base_delay 0 request) as Htrace.
  pose proof (retry_loop_last_call w max_retries base_delay 0 request) as Hlast.
  pose proof (retry_loop_stops w max_retries base_delay 0 request) as Hstop.
  destruct (retry_loop_counts w max_retries base_delay 0 request)
    as (_ & _ & Hsleeps & _).
  cbv zeta in Htrace, Hlast, Hstop.
  rewrite Nat.sub_0_r in Htrace, Hlast, Hstop, Hsleeps.
  destruct Hlast as (Hres & _ & Hfail).
  split; [exact Htrace |]. split; [exact Hres |]. split; [exact Hfail |].
  split; [exact Hstop |].
  split; [exact Hsleeps |]. split; [| reflexivity].
  intros n. apply sleep_s_delayFor.
Qed.

(** What [next_chunk_with_retry] returns or raises is what its last call of
    [next_chunk] did; the request is left as that call left it; and every
    call before the last raised an [HttpError] or [OSError] that the
    classifier takes for transient. *)
Theorem retry_ends_with_last_call (w : World) (max_retries : nat)
    (base_delay : Q) (request : session w) :
  let r := next_chunk_with_retry w max_retries base_delay request in
  run_result r = call_result w (run_intento r) request
  /\ run_session r = state_after w (S (run_intento r)) request
  /\ fails_transiently w (run_intento r) request = true.
Proof.
  cbv zeta. unfold next_chunk_with_retry.
  pose proof (retry_loop_last_call w max_retries base_delay 0 request) as H.
  cbv zeta in H. now rewrite Nat.sub_0_r in H.
Qed.

(** An [HttpError] or [OSError] that the classifier does not take for
    transient, or one that finds the counter at the bound, is raised at
    once: no message, no sleep, no further call. *)
Theorem no_retry_when_fatal_or_exhausted (w : World) (max_retries : nat)
    (base_delay : Q) (intento : nat) (request request' : session w) (e : exn) :
  next_chunk w request = (Raised e, request') ->
  is_transient e = false \/ max_retries <= intento ->
  retry_loop w max_retries base_delay intento request
  = mk_run (Raised e) request' intento [ENextChunk].
Proof.
  intros Hnext Hwhy. rewrite retry_loop_turn, Hnext.
  destruct Hwhy as [Htr | Hle].
  - now rewrite Htr, andb_false_r.
  - rewrite (proj2 (Nat.ltb_ge intento max_retries) Hle).
    now rewrite andb_false_r.
Qed.

(** A 404 is raised by the first call, though seven retries are allowed. *)
Lemma no_retry_when_fatal_or_exhausted_witness :
  is_http_or_os Scripted.not_found = true
  /\ next_chunk_with_retry Scripted.bare default_max_retries default_base_delay
       [Raised Scripted.not_found; Returned None true]
     = mk_run (Raised Scripted.not_found) [Returned None true] 0 [ENextChunk].
Proof.
  split; [reflexivity |].
  exact (no_retry_when_fatal_or_exhausted Scripted.bare default_max_retries
           default_base_delay 0 [Raised Scripted.not_found; Returned None true]
           [Returned None true] Scripted.not_found eq_refl (or_introl eq_refl)).
Defined.

(** With the defaults of the signature, one call of [next_chunk_with_retry]
    never sleeps more than 76.8 seconds at a time, nor more than 165.36
    seconds in all. *)
Theorem default_sleep_budget (w : World) (request : session w) :
  let r := next_chunk_with_retry w default_max_retries default_base_delay request in
  Forall (fun d => d <= 76.8)%Q (sleeps (run_events r))
  /\ (total_sleep (run_events r) <= 165.36)%Q.
Proof.
  cbv zeta. unfold next_chunk_with_retry.
  destruct (retry_loop_counts w default_max_retries default_base_delay 0 request)
    as (_ & _ & Hsleeps & Hmax).
  rewrite Nat.sub_0_r in Hsleeps. specialize (Hmax (Nat.le_0_l _)).
  rewrite total_sleep_sleeps, Hsleeps.
  set (k := run_intento
              (retry_loop w default_max_retries default_base_delay 0 request)) in *.
  unfold default_max_retries in Hmax.
  assert (Hk : k = 0 \/ k = 1 \/ k = 2 \/ k = 3 \/ k = 4 \/ k = 5 \/ k = 6 \/ k = 7)
    by lia.
  clearbody k.
  destruct Hk as [-> | [-> | [-> | [-> | [-> | [-> | [-> | ->]]]]]]];
    (split;
     [ repeat constructor; apply Qle_bool_iff; reflexivity
     | apply Qle_bool_iff; reflexivity ]).
Qed.

(** ** More on the coordinator *)

Section CoordinatorFacts.

Variable w : World.

(** When every file goes through, so does the loop over the files. *)
Lemma upload_each_succeeds (fuel : nat) (carpeta_id : string) (total : nat)
    (rutas : list string) (i : nat) :
  all_uploaded w fuel carpeta_id total i rutas = true ->
  exists files,
    upload_each w fuel carpeta_id total i rutas = Some (files, Ok tt)
    /\ statuses files = start_messages total i rutas
    /\ removals files = [].
Proof.
  revert i. induction rutas as [|ruta rutas IH]; intros i Hall.
  - exists []. auto.
  - cbn [all_uploaded] in Hall. apply andb_true_iff in Hall as [Hone Hall].
    destruct (IH (S i) Hall) as (files & Heach & Hs & Hr).
    cbn [upload_each]. unfold bind. rewrite Heach.
    destruct (upload_one w fuel carpeta_id total i ruta) as [[evs [[] | e]]|]
      eqn:Hrun; try discriminate.
    destruct (upload_one_events w _ _ _ _ _ _ _ Hrun) as (Hs1 & Hr1).
    exists (evs ++ files). split; [reflexivity |].
    rewrite statuses_app, removals_app, Hs, Hr, Hs1, Hr1. auto.
Qed.

(** The removals of a batch that ends are the staged paths. *)
Lemma upload_files_removals (fuel : nat) (cuenta : string) (rutas : list string) :
  ends (upload_body w fuel cuenta rutas) = true ->
  removals (events_of (upload_files w fuel cuenta rutas)) = rutas.
Proof.
  intros Hends. rewrite upload_files_turn.
  destruct (upload_body w fuel cuenta rutas) as [[evs r]|] eqn:Hbody;
    [| discriminate].
  pose proof (upload_body_removes_nothing w _ _ _ _ _ Hbody) as Hnone.
  destruct r as [[] | e]; [| destruct (is_exception e)]; cbn [events_of];
    rewrite !removals_app, Hnone, removals_map_ERemove; reflexivity.
Qed.

End CoordinatorFacts.

(** In a batch whose destination resolves and whose files all go through,
    the status callback receives the upload-start message of every file, in
    order, and then the success message; the last progress value is 100; the
    staged paths are removed afterwards.  The empty batch is such a batch. *)
Theorem batch_succeeds (w : World) (fuel : nat) (cuenta carpeta_id : string)
    (rutas : list string) :
  get_service w cuenta = ret tt ->
  carpeta_of w cuenta = ret carpeta_id ->
  all_uploaded w fuel carpeta_id (List.length rutas) 1 rutas = true ->
  exists files,
    upload_files w fuel cuenta rutas
    = Some ((files ++ [EProgress 100; EStatus "✅ Subida completada"])
              ++ map ERemove rutas, Ok tt)
    /\ statuses files = start_messages (List.length rutas) 1 rutas
    /\ removals files = [].
Proof.
  intros Hservice Hcarpeta Hall.
  destruct (upload_each_succeeds w _ _ _ _ _ Hall) as (files & Heach & Hs & Hr).
  exists files. split; [| auto].
  rewrite upload_files_turn. unfold upload_body, bind, emit.
  rewrite Hservice, Hcarpeta. cbn [ret]. rewrite Heach. reflexivity.
Qed.

Lemma batch_succeeds_witness :
  exists files,
    upload_files Scripted.tres 4 "penal" Scripted.dos_archivos
    = Some ((files ++ [EProgress 100; EStatus "✅ Subida completada"])
              ++ map ERemove Scripted.dos_archivos, Ok tt)
    /\ statuses files = ["Subiendo (1/2): a.pdf"; "Subiendo (2/2): c.pdf"]
    /\ removals files = [].
Proof.
  exact (batch_succeeds Scripted.tres 4 "penal" "folder-1" Scripted.dos_archivos
           eq_refl eq_refl eq_refl).
Defined.

(** An exception outside [Exception], such as [KeyboardInterrupt], raised
    while a file is transferred is not turned into a failure status: it
    leaves [upload_files], after the staged paths have been removed. *)
Theorem base_exception_leaves (w : World) (fuel : nat) (cuenta carpeta_id : string)
    (before : list string) (ruta : string) (after : list string)
    (evs : list event) (e : exn) :
  let rutas := before ++ ruta :: after in
  let total := List.length rutas in
  get_service w cuenta = ret tt ->
  carpeta_of w cuenta = ret carpeta_id ->
  all_uploaded w fuel carpeta_id total 1 before = true ->
  upload_one w fuel carpeta_id total (1 + List.length before) ruta
    = Some (evs, Raise e) ->
  is_exception e = false ->
  exists tr,
    upload_files w fuel cuenta rutas = Some (tr ++ map ERemove rutas, Raise e)
    /\ statuses tr = start_messages total 1 (before ++ [ruta])
    /\ removals tr = [].
Proof.
  cbv zeta. intros Hservice Hcarpeta Hbefore Hone Hexc.
  destruct (upload_each_fails w fuel carpeta_id _ before ruta after 1 evs e
              Hbefore Hone) as (tr & Heach & Hs & Hr).
  exists tr. rewrite upload_files_turn. unfold upload_body, bind.
  rewrite Hservice, Hcarpeta. cbn [ret]. rewrite Heach. cbn [app].
  rewrite Hexc. auto.
Qed.

Lemma base_exception_leaves_witness :
  exists tr,
    upload_files ScriptedMore.interrumpido 4 "penal" ScriptedMore.interrumpido_archivos
    = Some (tr ++ map ERemove ScriptedMore.interrumpido_archivos,
            Raise ScriptedMore.KeyboardInterrupt)
    /\ statuses tr = ["Subiendo (1/2): a.pdf"; "Subiendo (2/2): k.pdf"]
    /\ removals tr = [].
Proof.
  exact (base_exception_leaves ScriptedMore.interrumpido 4 "penal" "folder-1"
           ["temp_uploads/a.pdf"] "temp_uploads/k.pdf" []
           (events_of (upload_one ScriptedMore.interrumpido 4 "folder-1" 2 2
                         "temp_uploads/k.pdf"))
           ScriptedMore.KeyboardInterrupt eq_refl eq_refl eq_refl eq_refl eq_refl).
Defined.

(** When resolving the destination raises an exception, in [get_service]
    or at the lookup of the folder, no file is started and no chunk is
    sent: the failure status is the only callback, and the staged paths are
    removed. *)
Theorem unresolved_destination_starts_nothing (w : World) (fuel : nat)
    (cuenta : string) (rutas : list string) (e : exn) :
  get_service w cuenta = raise e
  \/ (get_service w cuenta = ret tt /\ carpeta_of w cuenta = raise e) ->
  is_exception e = true ->
  upload_files w fuel cuenta rutas
  = Some (EStatus (error_status e) :: map ERemove rutas, Ok tt).
Proof.
  intros Hwhere Hexc. rewrite upload_files_turn. unfold upload_body, bind.
  destruct Hwhere as [-> | [-> ->]]; cbn [raise ret]; now rewrite Hexc.
Qed.

(** An account without its "carpeta" entry: the batch fails on the key. *)
Lemma unresolved_destination_starts_nothing_witness :
  upload_files ScriptedMore.sin_carpeta 0 "penal" Scripted.dos_archivos
  = Some ([ EStatus "❌ Error: KeyError: 'carpeta'";
            ERemove "temp_uploads/a.pdf"; ERemove "temp_uploads/c.pdf" ],
          Ok tt).
Proof.
  exact (unresolved_destination_starts_nothing ScriptedMore.sin_carpeta 0 "penal"
           Scripted.dos_archivos (KeyError ScriptedMore.sin_carpeta "carpeta")
           (or_intror (conj eq_refl eq_refl)) eq_refl).
Defined.

(** Whatever happens to a file once it is started (chunks, retries, a
    failure to open it, an error), the status callback is called for it
    once, with its upload-start message, its first progress value is 0, and
    nothing is removed meanwhile. *)
Theorem one_start_message_per_file (w : World) (fuel : nat) (carpeta_id : string)
    (total i : nat) (ruta : string) (evs : list event) (r : res unit) :
  upload_one w fuel carpeta_id total i ruta = Some (evs, r) ->
  statuses evs = [subiendo i total (PyStr.basename ruta)]
  /\ (exists rest, progresses evs = 0%Z :: rest)
  /\ removals evs = [].
Proof.
  intros Hone.
  destruct (upload_one_events w _ _ _ _ _ _ _ Hone) as (Hs & Hr).
  split; [exact Hs |]. split; [| exact Hr].
  rewrite upload_one_turn in Hone.
  destruct (create_request w ruta (PyStr.basename ruta) carpeta_id) as [e | request].
  - injection Hone as <- <-. now exists [].
  - destruct (transfer_loop w fuel request) as [[evs' r']|]; [| discriminate].
    injection Hone as <- <-. now exists (progresses evs').
Qed.

Lemma one_start_message_per_file_witness :
  statuses (events_of (upload_one Scripted.tres 4 "folder-1" 3 2 "temp_uploads/b.pdf"))
  = ["Subiendo (2/3): b.pdf"]
  /\ (exists rest,
        progresses
          (events_of (upload_one Scripted.tres 4 "folder-1" 3 2 "temp_uploads/b.pdf"))
        = 0%Z :: rest)
  /\ removals
       (events_of (upload_one Scripted.tres 4 "folder-1" 3 2 "temp_uploads/b.pdf"))
     = [].
Proof.
  exact (one_start_message_per_file Scripted.tres 4 "folder-1" 3 2
           "temp_uploads/b.pdf"
           (events_of (upload_one Scripted.tres 4 "folder-1" 3 2 "temp_uploads/b.pdf"))
           (Raise Scripted.not_found) eq_refl).
Defined.

(** ** More on the intake *)

Section IntakeFacts.

Lemma basename_from_no_slash (acc b : string) :
  PyStr.contains "/" b = false -> PyStr.basename_from acc b = acc +++ b.
Proof.
  revert acc. induction b as [|c b IH]; intros acc H.
  - cbn. now rewrite append_empty_r.
  - cbn [PyStr.contains PyStr.starts_with] in H.
    apply orb_false_iff in H as [Hc Hb]. rewrite andb_true_r in Hc.
    cbn [PyStr.basename_from]. rewrite Ascii.eqb_sym, Hc.
    rewrite IH by exact Hb. rewrite append_assoc. reflexivity.
Qed.

Lemma basename_from_after_slash (acc a b : string) :
  PyStr.basename_from acc (a +++ String "/" b)
  = PyStr.basename_from EmptyString b.
Proof.
  revert acc. induction a as [|c a IH]; intros acc; [reflexivity |].
  cbn [String.append PyStr.basename_from].
  destruct (Ascii.eqb c "/"); apply IH.
Qed.

Lemma ends_with_slash_split (a : string) :
  PyStr.ends_with_slash a = true -> exists a', a = a' +++ "/".
Proof.
  unfold PyStr.ends_with_slash. induction a as [|c a IH]; [discriminate |].
  destruct a as [|d a].
  - cbn. intros H. apply Ascii.eqb_eq in H. subst c. now exists EmptyString.
  - intros H.
    assert (Hget : String.get (String.length (String c (String d a)) - 1)
                     (String c (String d a))
                   = String.get (String.length (String d a) - 1) (String d a)).
    { cbn [String.length]. rewrite !Nat.sub_succ, !Nat.sub_0_r. reflexivity. }
    rewrite Hget in H. destruct (IH H) as [a' Ha'].
    exists (String c a'). cbn. now rewrite <- Ha'.
Qed.


Lemma dict_keys_In {V : Type} (d : list (string * V)) (k : string) :
  In k (dict_keys d) <-> dict_mem k d = true.
Proof.
  unfold dict_mem. induction d as [|[k' v] d IH]; cbn [dict_keys dict_get].
  - split; [contradiction | discriminate].
  - cbn [In]. rewrite filter_In, IH.
    destruct (String.eqb_spec k' k) as [-> | Hne].
    + split; [reflexivity | now left].
    + split.
      * now intros [Heq | [Hin _]].
      * intros H. right. split; [exact H |].
        apply negb_true_iff. apply String.eqb_neq. congruence.
Qed.

Lemma dict_keys_NoDup {V : Type} (d : list (string * V)) : NoDup (dict_keys d).
Proof.
  induction d as [|[k v] d IH]; cbn [dict_keys]; constructor.
  - rewrite filter_In. intros [_ H]. now rewrite String.eqb_refl in H.
  - now apply NoDup_filter.
Qed.

End IntakeFacts.

Lemma save_files_stage (w : World) (io : Intake) (files : list file_storage) :
  (exists rest, stage w files = fst (save_files w io files) ++ rest)
  /\ (snd (save_files w io files) = None ->
      fst (save_files w io files) = stage w files).
Proof.
  induction files as [|f files [[rest IHrest] IHall]]; cbn [save_files stage].
  - split; [now exists [] | reflexivity].
  - destruct (secure_filename w (filename_or_default f) =? EmptyString)%string.
    + split; [now exists rest | exact IHall].
    + destruct (save io f _) as [e|].
      * cbn. split; [eauto | discriminate].
      * destruct (save_files w io files) as [rutas raised]. cbn in *.
        split; [exists rest; now rewrite IHrest |].
        intros Hnone. now rewrite (IHall Hnone).
Qed.

(** [upload] answers 202 exactly when the form can be read, names a
    configured account, every [f.save] returns with at least one file saved,
    and the thread starts; one worker is then started, with the account and
    the paths saved.  Otherwise it answers 400 with nothing saved and nothing
    started, or it is left by the exception raised by reading the form, by
    [f.save] or by the start of the thread: no worker is started then, and
    the files saved until then are left staged. *)
Theorem upload_accepts_iff (w : World) (io : Intake) (request : exn + form_request) :
  ((exists o, upload w io request = Responds o /\ response_code o = 202)
   <-> exists req cuenta,
         request = inr req
         /\ form_cuenta req = Some cuenta
         /\ cuenta <> EmptyString
         /\ dict_mem cuenta (CUENTAS w) = true
         /\ snd (save_files w io (form_archivos req)) = None
         /\ stage w (form_archivos req) <> []
         /\ start_thread io cuenta (stage w (form_archivos req)) = None)
  /\ (forall o,
         upload w io request = Responds o ->
         (response_code o = 202
          /\ exists req cuenta,
               request = inr req
               /\ form_cuenta req = Some cuenta
               /\ saved o = stage w (form_archivos req)
               /\ started o = [(cuenta, saved o)])
         \/ (response_code o = 400 /\ response_key o = "error"
             /\ saved o = [] /\ started o = []))
  /\ (forall e left_staged,
         upload w io request = Raises e left_staged ->
         (request = inl e /\ left_staged = [])
         \/ exists req cuenta,
              request = inr req
              /\ form_cuenta req = Some cuenta
              /\ dict_mem cuenta (CUENTAS w) = true
              /\ (exists rest, stage w (form_archivos req) = left_staged ++ rest)
              /\ (save_files w io (form_archivos req) = (left_staged, Some e)
                  \/ (save_files w io (form_archivos req) = (left_staged, None)
                      /\ start_thread io cuenta left_staged = Some e))).
Proof.
  assert (Hno : forall reason,
             response_code (reject reason) = 202 -> False) by discriminate.
  unfold upload. destruct request as [e0 | req].
  { split; [split |]; [intros (o & H & _); discriminate
                      | intros (req & c & H & _); discriminate |].
    split; [discriminate |].
    intros e left H. injection H as <- <-. now left. }
  destruct (form_cuenta req) as [cuenta|] eqn:Hcuenta.
  2:{ split; [split |]; [intros (o & H & Hc); injection H as <-; now apply Hno in Hc
                        | intros (r & c & H & H' & _); injection H as <-; congruence |].
      split; [| discriminate].
      intros o H. injection H as <-. right. cbn. auto. }
  destruct (String.eqb_spec cuenta EmptyString) as [-> | Hne].
  { cbn [orb].
    split; [split |]; [intros (o & H & Hc); injection H as <-; now apply Hno in Hc
                      | intros (r & c & H & H' & Hc & _); injection H as <-; congruence |].
    split; [| discriminate].
    intros o H. injection H as <-. right. cbn. auto. }
  destruct (form_archivos req) as [|f files] eqn:Hfiles.
  { cbn [orb].
    split; [split |]; [intros (o & H & Hc); injection H as <-; now apply Hno in Hc
                      | intros (r & c & H & _ & _ & _ & _ & Hs & _); injection H as <-;
                        rewrite Hfiles in Hs; now contradiction Hs |].
    split; [| discriminate].
    intros o H. injection H as <-. right. cbn. auto. }
  cbn [orb]. rewrite <- Hfiles.
  destruct (dict_mem cuenta (CUENTAS w)) eqn:Hmem; cbn [negb].
  2:{ split; [split |]; [intros (o & H & Hc); injection H as <-; now apply Hno in Hc
                        | intros (r & c & H & H' & _ & Hm & _); injection H as <-;
                          congruence |].
      split; [| discriminate].
      intros o H. injection H as <-. right. cbn. auto. }
  destruct (save_files_stage w io (form_archivos req)) as [[rest Hrest] Hall].
  destruct (save_files w io (form_archivos req)) as [rutas [e|]] eqn:Hsave;
    cbn [fst snd] in *; cbv beta iota.
  { split; [split |]; [intros (o & H & _); discriminate
                      | intros (r & c & H & _ & _ & _ & Hs & _); injection H as <-;
                        rewrite Hsave in Hs; discriminate |].
    split; [discriminate |].
    intros e' left H. injection H as <- <-. right.
    exists req, cuenta. repeat split; eauto. }
  specialize (Hall eq_refl). subst rutas.
  destruct (stage w (form_archivos req)) as [|ruta rutas] eqn:Hstage.
  { split; [split |]; [intros (o & H & Hc); injection H as <-; now apply Hno in Hc
                      | intros (r & c & H & _ & _ & _ & _ & Hs & _); injection H as <-;
                        rewrite Hstage in Hs; now contradiction Hs |].
    split; [| discriminate].
    intros o H. injection H as <-. right. cbn. auto. }
  destruct (start_thread io cuenta (ruta :: rutas)) as [e|] eqn:Hstart.
  { split; [split |]; [intros (o & H & _); discriminate
                      | intros (r & c & H & Hc & _ & _ & _ & _ & Hs); injection H as <-;
                        rewrite Hcuenta in Hc; injection Hc as <-;
                        rewrite Hstage in Hs; congruence |].
    split; [discriminate |].
    intros e' left H. injection H as <- <-. right.
    exists req, cuenta. repeat split; eauto.
    exists []. now rewrite app_nil_r. }
  split; [split |].
  - intros _. exists req, cuenta. rewrite Hsave, Hstage.
    repeat split; auto; discriminate.
  - intros _. eexists. split; reflexivity.
  - split; [| discriminate].
    intros o H. injection H as <-. left. cbn. split; [reflexivity |].
    exists req, cuenta. auto.
Qed.

(** A form of three files, read while the disk fills up: [f.save] raises
    on the third, the first is left staged, and no worker is started. *)
Lemma upload_accepts_iff_witness :
  upload ScriptedMore.dos_cuentas ScriptedMore.falla_sin_nombre
    (inr ScriptedMore.formulario)
  = Raises ScriptedMore.disco_lleno ["temp_uploads/a.pdf"]
  /\ exists req cuenta,
       inr ScriptedMore.formulario = @inr exn form_request req
       /\ form_cuenta req = Some cuenta
       /\ dict_mem cuenta (CUENTAS ScriptedMore.dos_cuentas) = true
       /\ (exists rest,
              stage ScriptedMore.dos_cuentas (form_archivos req)
              = ["temp_uploads/a.pdf"] ++ rest)
       /\ (save_files ScriptedMore.dos_cuentas ScriptedMore.falla_sin_nombre
             (form_archivos req)
           = (["temp_uploads/a.pdf"], Some ScriptedMore.disco_lleno)
           \/ (save_files ScriptedMore.dos_cuentas ScriptedMore.falla_sin_nombre
                 (form_archivos req)
               = (["temp_uploads/a.pdf"], None)
               /\ start_thread ScriptedMore.falla_sin_nombre cuenta
                    ["temp_uploads/a.pdf"]
                  = Some ScriptedMore.disco_lleno)).
Proof.
  split; [reflexivity |].
  destruct (proj2 (proj2 (upload_accepts_iff ScriptedMore.dos_cuentas
                            ScriptedMore.falla_sin_nombre
                            (inr ScriptedMore.formulario)))
              ScriptedMore.disco_lleno ["temp_uploads/a.pdf"] eq_refl)
    as [[H _] | H]; [discriminate H | exact H].
Defined.


(** The name shown in the upload-start message of a staged file is its
    sanitized name: the base name of [UPLOAD_DIR] joined with a name that
    holds no "/" is that name. *)
Theorem staged_name_is_shown (dir name : string) :
  PyStr.contains "/" name = false ->
  PyStr.basename (PyStr.path_join dir name) = name.
Proof.
  intros Hname. unfold PyStr.path_join, PyStr.basename.
  assert (Hstart : PyStr.starts_with "/" name = false).
  { destruct name as [|c name]; [reflexivity |].
    cbn [PyStr.contains] in Hname. now apply orb_false_iff in Hname as [H _]. }
  rewrite Hstart.
  destruct (String.eqb_spec dir EmptyString) as [-> | Hdir]; cbn [orb].
  - cbn [String.append]. now apply basename_from_no_slash.
  - destruct (PyStr.ends_with_slash dir) eqn:Hend.
    + destruct (ends_with_slash_split dir Hend) as [dir' ->].
      rewrite append_assoc. cbn [String.append].
      rewrite basename_from_after_slash. now apply basename_from_no_slash.
    + cbn [String.append]. rewrite basename_from_after_slash.
      now apply basename_from_no_slash.
Qed.

Lemma staged_name_is_shown_witness :
  PyStr.basename (PyStr.path_join "temp_uploads" "informe_final.pdf")
  = "informe_final.pdf".
Proof. exact (staged_name_is_shown "temp_uploads" "informe_final.pdf" eq_refl). Defined.

(** What the intake accepts, the worker can resolve and cleans up: the
    account of the worker it starts is configured, so [get_service] does not
    fail on the name; the batch is not empty; and when the worker ends, it
    has called [os.remove] on each path the intake saved, once. *)
Theorem accepted_batch_is_cleaned (w : World) (io : Intake)
    (request : exn + form_request) (o : upload_outcome) :
  upload w io request = Responds o ->
  response_code o = 202 ->
  exists cuenta rutas,
    started o = [(cuenta, rutas)]
    /\ rutas <> []
    /\ dict_mem cuenta (CUENTAS w) = true
    /\ (forall fuel,
           ends (upload_body w fuel cuenta rutas) = true ->
           removals (events_of (upload_files w fuel cuenta rutas)) = saved o).
Proof.
  intros Hup Hcode. unfold upload in Hup.
  destruct request as [e | req]; [discriminate |].
  destruct (form_cuenta req) as [cuenta|];
    [| injection Hup as <-; discriminate].
  destruct (cuenta =? EmptyString)%string; [injection Hup as <-; discriminate |].
  destruct (form_archivos req) as [|f files]; [injection Hup as <-; discriminate |].
  cbn [orb] in Hup.
  destruct (dict_mem cuenta (CUENTAS w)) eqn:Hmem;
    [| injection Hup as <-; discriminate].
  cbn [negb] in Hup.
  destruct (save_files w io (f :: files)) as [[|ruta rutas] [e|]];
    cbv beta iota in Hup; try discriminate; [injection Hup as <-; discriminate |].
  destruct (start_thread io cuenta (ruta :: rutas)); [discriminate |].
  injection Hup as <-.
  exists cuenta, (ruta :: rutas). cbn.
  split; [reflexivity |]. split; [discriminate |]. split; [exact Hmem |].
  intros fuel Hends. now apply upload_files_removals.
Qed.

Lemma accepted_batch_is_cleaned_witness :
  exists cuenta rutas,
    [("civil", ["temp_uploads/a.pdf"; "temp_uploads/archivo"])] = [(cuenta, rutas)]
    /\ rutas <> []
    /\ dict_mem cuenta (CUENTAS ScriptedMore.dos_cuentas) = true
    /\ (forall fuel,
           ends (upload_body ScriptedMore.dos_cuentas fuel cuenta rutas) = true ->
           removals (events_of (upload_files ScriptedMore.dos_cuentas fuel cuenta rutas))
           = ["temp_uploads/a.pdf"; "temp_uploads/archivo"]).
Proof.
  exact (accepted_batch_is_cleaned ScriptedMore.dos_cuentas ScriptedMore.sin_fallos
           (inr ScriptedMore.formulario)
           {| response_key := "status"; response_value := "Subida iniciada";
              response_code := 202;
              saved := ["temp_uploads/a.pdf"; "temp_uploads/archivo"];
              started := [("civil", ["temp_uploads/a.pdf"; "temp_uploads/archivo"])] |}
           eq_refl eq_refl).
Defined.

(** The accounts the page offers are those the intake takes for
    configured, each listed once. *)
Theorem home_lists_configured_accounts (w : World) :
  (forall cuenta, In cuenta (home w) <-> dict_mem cuenta (CUENTAS w) = true)
  /\ NoDup (home w).
Proof.
  split; [intros cuenta; apply dict_keys_In | apply dict_keys_NoDup].
Qed.

(** ** Start-up *)

(** Start-up succeeds exactly when the configuration file holds an object
    with a member "cuentas": [CUENTAS] is then that member and
    [CREDENTIALS_FILE] the member "oauth_client", or the default file when
    there is none.  For an object, start-up fails only where [load_config]
    fails, with [KeyError] when "cuentas" is missing.  For an array that has
    the item "cuentas", or a string that contains it, [load_config] returns
    and the lookup [CONFIG["cuentas"]] raises [TypeError].  An absent file
    gives [FileNotFoundError], with the name of the file. *)
Theorem startup_outcomes (py : PyText) (env : Environ) (file : config_file) :
  ((exists st, startup py env file = inr st)
   <-> exists members, file = Some (inr (JObject members))
                       /\ dict_mem "cuentas" members = true)
  /\ (forall members st,
         file = Some (inr (JObject members)) ->
         startup py env file = inr st ->
         dict_get "cuentas" members = Some (st_CUENTAS st)
         /\ st_CREDENTIALS_FILE st
            = match dict_get "oauth_client" members with
              | Some v => v
              | None => JString (environ_get (env_OAUTH_CLIENT_FILE env)
                                   "credentials.json")
              end)
  /\ (forall members e,
         file = Some (inr (JObject members)) ->
         startup py env file = inl e ->
         load_config py env file = inl e
         /\ dict_get "cuentas" members = None
         /\ exn_name e = "KeyError")
  /\ (forall cfg,
         file = Some (inr cfg) ->
         (exists items, cfg = JArray items) \/ (exists s, cfg = JString s) ->
         json_in "cuentas" cfg = Some true ->
         load_config py env file = inr cfg
         /\ startup py env file = inl (TypeError (bad_subscript py cfg)))
  /\ (file = None ->
      startup py env file
      = inl (mk_exn BOSError "FileNotFoundError"
               ("No se encontró " +++ environ_get (env_CONFIG_FILE env) "config.json"))).
Proof.
  unfold startup, load_config.
  destruct file as [[e0 | cfg]|];
    [ | destruct cfg as [| b | q | s | items | members]; cbn [json_in json_subscript];
        [ | | | destruct (PyStr.contains "cuentas" s) eqn:Hin
          | destruct (existsb _ items) eqn:Hin
          | unfold dict_mem;
            destruct (dict_get "cuentas" members) as [cuentas|] eqn:Hcuentas;
            cbn [json_subscript]; try rewrite Hcuentas ] | ];
    repeat split; intros;
    repeat match goal with
           | H : exists _, _ |- _ => destruct H
           | H : _ /\ _ |- _ => destruct H
           | H : _ \/ _ |- _ => destruct H
           end;
    subst;
    repeat match goal with
           | H : Some _ = Some _ |- _ => injection H as H
           | H : @inr _ _ _ = @inr _ _ _ |- _ => injection H as H
           | H : @inl _ _ _ = @inl _ _ _ |- _ => injection H as H
           end;
    subst; try discriminate; try congruence; cbn in *;
    try rewrite Hcuentas in *; try discriminate; try congruence; eauto.
  exists members. now rewrite Hcuentas.
Qed.

(** The file holds the array ["cuentas"]: [load_config] returns it, and
    start-up fails on the lookup. *)
Lemma startup_outcomes_witness :
  load_config ScriptedStartup.py ScriptedStartup.sin_variables
    (Some (inr (JArray [JString "cuentas"])))
  = inr (JArray [JString "cuentas"])
  /\ startup ScriptedStartup.py ScriptedStartup.sin_variables
       (Some (inr (JArray [JString "cuentas"])))
     = inl (TypeError "indices must be integers").
Proof.
  exact (proj1 (proj2 (proj2 (proj2
           (startup_outcomes ScriptedStartup.py ScriptedStartup.sin_variables
              (Some (inr (JArray [JString "cuentas"])))))))
           (JArray [JString "cuentas"]) eq_refl
           (or_introl (ex_intro _ [JString "cuentas"] eq_refl)) eq_refl).
Defined.

(** ** The credential steps *)



(** The service is returned without a write of the token file exactly
    when the token file is present and holds valid credentials; then neither
    a refresh nor the local flow has run.  In every other pass that returns
    the service, the token file has been written. *)
Theorem token_written_unless_valid (env : AuthEnv) (client_file token_file : string) :
  snd (credential_steps env client_file token_file) = None ->
  let evs := fst (credential_steps env client_file token_file) in
  (writes evs = [] <->
   path_exists env token_file = true
   /\ exists c, from_authorized_user_file env token_file = inr c
                /\ cred_valid c = true)
  /\ (writes evs = [] -> refreshes evs + flows evs = 0).
Proof.
  cbv zeta.
  unfold credential_steps, obtain_and_build, write_and_build.
  destruct (path_exists env token_file).
  - destruct (from_authorized_user_file env token_file) as [e | c]; [discriminate |].
    destruct (cred_valid c) eqn:Hvalid.
    + cbn. intros _. split; [| reflexivity].
      split; [| reflexivity]. intros _. split; [reflexivity | now exists c].
    + assert (Hno : ~ (true = true
                       /\ exists c0 : credentials_t,
                            inr c = @inr exn credentials_t c0
                            /\ cred_valid c0 = true))
        by (intros [_ [c0 [H Hv]]]; congruence).
      destruct (cred_expired c && cred_refresh_token c).
      * destruct (refresh env c) as [e | c']; [discriminate |].
        destruct (write_text env token_file (cred_json c')); [discriminate |].
        cbn. intros _. split; [split |]; try discriminate. intros H. now destruct Hno.
      * destruct (run_local_server env client_file) as [e | c']; [discriminate |].
        destruct (write_text env token_file (cred_json c')); [discriminate |].
        cbn. intros _. split; [split |]; try discriminate. intros H. now destruct Hno.
  - destruct (run_local_server env client_file) as [e | c']; [discriminate |].
    destruct (write_text env token_file (cred_json c')); [discriminate |].
    cbn. intros _. split; [split |]; try discriminate. intros [H _]. discriminate.
Qed.

Lemma token_written_unless_valid_witness :
  credential_steps
    (ScriptedAuth.env ScriptedAuth.stored_expired (inr ScriptedAuth.refreshed))
    "credentials.json" "token_penal.json"
  = ([ ALoad "token_penal.json"; APrint "[auth] Refrescando token…"; ARefresh;
       AWrite "token_penal.json" "{refreshed}"; ABuild ], None)
  /\ (writes
        (fst (credential_steps
                (ScriptedAuth.env ScriptedAuth.stored_expired
                   (inr ScriptedAuth.refreshed))
                "credentials.json" "token_penal.json")) = [] ->
      refreshes
        (fst (credential_steps
                (ScriptedAuth.env ScriptedAuth.stored_expired
                   (inr ScriptedAuth.refreshed))
                "credentials.json" "token_penal.json"))
      + flows
          (fst (credential_steps
                  (ScriptedAuth.env ScriptedAuth.stored_expired
                     (inr ScriptedAuth.refreshed))
                  "credentials.json" "token_penal.json")) = 0).
Proof.
  split; [reflexivity |].
  exact (proj2 (token_written_unless_valid
                  (ScriptedAuth.env ScriptedAuth.stored_expired
                     (inr ScriptedAuth.refreshed))
                  "credentials.json" "token_penal.json" eq_refl)).
Defined.

(** A refresh is tried exactly for stored credentials that are not valid,
    are expired and hold a refresh token; the local flow runs exactly when
    there is no token file or the stored credentials are not valid and
    cannot be refreshed. *)
Theorem refresh_or_flow (env : AuthEnv) (client_file token_file : string) :
  let evs := fst (credential_steps env client_file token_file) in
  (refreshes evs = 1 <->
   path_exists env token_file = true
   /\ exists c, from_authorized_user_file env token_file = inr c
                /\ cred_valid c = false
                /\ cred_expired c && cred_refresh_token c = true)
  /\ (flows evs = 1 <->
      path_exists env token_file = false
      \/ exists c, from_authorized_user_file env token_file = inr c
                   /\ cred_valid c = false
                   /\ cred_expired c && cred_refresh_token c = false).
Proof.
  cbv zeta.
  unfold credential_steps, obtain_and_build, write_and_build.
  destruct (path_exists env token_file).
  - destruct (from_authorized_user_file env token_file) as [e | c] eqn:Hload.
    + cbn. split; split; try discriminate.
      * intros [_ [c [H _]]]. discriminate.
      * intros [H | [c [H _]]]; discriminate.
    + destruct (cred_valid c) eqn:Hvalid.
      * cbn. split; split; try discriminate.
        -- intros [_ [c0 [H [Hv _]]]]. congruence.
        -- intros [H | [c0 [H [Hv _]]]]; congruence.
      * destruct (cred_expired c && cred_refresh_token c) eqn:Hcan.
        -- destruct (refresh env c) as [e | c'];
             [| destruct (write_text env token_file (cred_json c'))];
             cbn; (split; split; try discriminate; try reflexivity;
                   [ intros _; split; [reflexivity | exists c; auto]
                   | intros [H | [c0 [H [_ Hc]]]]; congruence ]).
        -- destruct (run_local_server env client_file) as [e | c'];
             [| destruct (write_text env token_file (cred_json c'))];
             cbn; (split; split; try discriminate; try reflexivity;
                   [ intros [_ [c0 [H [_ Hc]]]]; congruence
                   | intros _; right; exists c; auto ]).
  - destruct (run_local_server env client_file) as [e | c'];
      [| destruct (write_text env token_file (cred_json c'))];
      cbn; (split; split; try discriminate; try reflexivity;
            [ intros [H _]; discriminate | intros _; now left ]).
Qed.

(** When the refresh of stored credentials raises, the exception leaves
    the credential steps: the local flow is not tried in its place, and the
    token file is left as it was. *)
Theorem failed_refresh_is_final (env : AuthEnv) (client_file token_file : string)
    (c : credentials_t) (e : exn) :
  path_exists env token_file = true ->
  from_authorized_user_file env token_file = inr c ->
  cred_valid c = false ->
  cred_expired c && cred_refresh_token c = true ->
  refresh env c = inl e ->
  credential_steps env client_file token_file
  = ([ALoad token_file; APrint "[auth] Refrescando token…"; ARefresh], Some e).
Proof.
  intros Hexists Hload Hvalid Hcan Hrefresh.
  unfold credential_steps, obtain_and_build.
  now rewrite Hexists, Hload, Hvalid, Hcan, Hrefresh.
Qed.

Lemma failed_refresh_is_final_witness :
  credential_steps
    (ScriptedAuth.env ScriptedAuth.stored_expired (inl ScriptedAuth.RefreshError))
    "credentials.json" "token_penal.json"
  = ([ALoad "token_penal.json"; APrint "[auth] Refrescando token…"; ARefresh],
     Some ScriptedAuth.RefreshError).
Proof.
  exact (failed_refresh_is_final
           (ScriptedAuth.env ScriptedAuth.stored_expired
              (inl ScriptedAuth.RefreshError))
           "credentials.json" "token_penal.json" ScriptedAuth.stored_expired
           ScriptedAuth.RefreshError eq_refl eq_refl eq_refl eq_refl eq_refl).
Defined.
